(** * hue-mcp: the line-delimited JSON command server of [src/server.ts]

    A shallow embedding of the [data] handler of [startMCPServer], of
    [handleMessage], [handleCommand] and [initializeHueBridge], and of the
    callback that [disco] hands to [setInterval], followed by the
    properties of the specification that concern them.

    Conventions of the embedding.
    - A JavaScript [number] is an exact rational ([Q]) and [Math.round] is
      [floor (x + 1/2)].  Module [Double] evaluates the two conversions of
      the interpreter on IEEE-754 binary64 numbers, to compare them with
      the exact ones on the range the specification names.
    - A command is a record of the interface [MCPCommand]: [JSON.parse] is
      a parameter that returns such a record or throws.  An optional field
      is an [option]; the guards of the interpreter test truthiness, so an
      empty string or a zero counts as missing where the source writes
      [!x] or [x || d].
    - The Hue bridge ([state.bridge], an object of node-hue-api) is the
      environment: a record of functions that say, given the calls the
      bridge has received so far, whether a call resolves or rejects.
    - Asynchronous code runs in a state-and-exception monad over a [World]
      that holds the module-level [state], the clock, the registered
      intervals and the trace of observable events.  Every [await] is
      sequenced in program order and a handler or timer callback runs to
      completion before the next one starts; interleavings of pending
      handlers are not represented.
    - [console.log] and [console.error] are left out. *)

From Stdlib Require Import ZArith QArith Qround Lia Lqa List Bool Ascii String Floats.
From stdpp Require Import base option list gmap strings.
From Equations Require Import Equations.

Local Open Scope string_scope.
Local Open Scope Z_scope.

Set Default Proof Using "Type".

(** ** JavaScript numbers and strings *)

Module JS.

Abbreviation number := Q.

Definition num (z : Z) : number := inject_Z z.

(** [Math.round]: nearest integer, ties towards +infinity. *)
Definition Math_round (x : number) : Z := Qfloor (x + (1 # 2))%Q.

(** Truthiness of a number: [0] is falsy. *)
Definition truthy_num (x : number) : bool := negb (Qeq_bool x 0).

(** Truthiness of a string: [""] is falsy. *)
Definition truthy_str (s : string) : bool :=
  match s with EmptyString => false | String _ _ => true end.

(** [x || d] on an optional number. *)
Definition or_num (x : option number) (d : number) : number :=
  match x with
  | Some v => if truthy_num v then v else d
  | None => d
  end.

(** [x || d] on an optional string. *)
Definition or_str (x : option string) (d : string) : string :=
  match x with
  | Some v => if truthy_str v then v else d
  | None => d
  end.

Definition newline : ascii := "010"%char.

(** [s.indexOf(c)], [-1] when [c] does not occur. *)
Fixpoint indexOf (s : string) (c : ascii) : Z :=
  match s with
  | EmptyString => -1
  | String a s' =>
      if Ascii.eqb a c then 0
      else let i := indexOf s' c in if i =? -1 then -1 else i + 1
  end.

Fixpoint drop_chars (n : nat) (s : string) : string :=
  match n, s with
  | O, _ => s
  | S _, EmptyString => EmptyString
  | S n', String _ s' => drop_chars n' s'
  end.

Fixpoint take_chars (n : nat) (s : string) : string :=
  match n, s with
  | O, _ => EmptyString
  | S _, EmptyString => EmptyString
  | S n', String a s' => String a (take_chars n' s')
  end.

(** A relative index of [slice]: negative counts from the end, and the
    result is clamped to [0 .. length]. *)
Definition clamp_index (len i : Z) : Z :=
  if i <? 0 then Z.max (len + i) 0 else Z.min i len.

(** [s.slice(start, end)]. *)
Definition slice (s : string) (start : Z) (end_ : Z) : string :=
  let len := Z.of_nat (String.length s) in
  let from := clamp_index len start in
  let to := clamp_index len end_ in
  take_chars (Z.to_nat (to - from)) (drop_chars (Z.to_nat from) s).

(** [s.slice(start)]. *)
Definition slice_from (s : string) (start : Z) : string :=
  slice s start (Z.of_nat (String.length s)).

End JS.

(** ** The conversions on binary64 numbers *)

Module Double.

(** The rational value of a finite binary64 number. *)
Definition exact (x : float) : option Q :=
match Prim2SF x with
| S754_zero _ => Some 0%Q
| S754_finite s m e =>
    let mz := if s then Z.neg m else Z.pos m in
    Some (if 0 <=? e then inject_Z (mz * 2 ^ e) else mz # Z.to_pos (2 ^ (- e)))
| S754_infinity _ => None
| S754_nan => None
end.

(** [Math.round] on a finite binary64 number. *)
Definition Math_round (x : float) : option Z := option_map JS.Math_round (exact x).

(** The binary64 number of a small non-negative integer literal. *)
Definition of_Z (z : Z) : float := PrimFloat.of_uint63 (Uint63.of_Z z).

(** [Math.round((brightness / 100) * 254)]. *)
Definition bri (brightness : Z) : option Z :=
Math_round (PrimFloat.mul (PrimFloat.div (of_Z brightness) (of_Z 100)) (of_Z 254)).

(** [Math.round(1000000 / temperature)]. *)
Definition ct (temperature : Z) : option Z :=
Math_round (PrimFloat.div (of_Z 1000000) (of_Z temperature)).

End Double.

(** ** Session/framing layer: the [data] handler of [startMCPServer] *)

Module Framing.
Import JS.

Lemma indexOf_range (s : string) (c : ascii) :
  indexOf s c <> -1 -> 0 <= indexOf s c < Z.of_nat (String.length s).
Proof.
  induction s as [|a s IH]; simpl; [congruence|].
  destruct (Ascii.eqb a c); [lia|].
  destruct (Z.eqb_spec (indexOf s c) (-1)); [congruence|].
  intros _. specialize (IH n). lia.
Qed.

Lemma indexOf_lower (s : string) (c : ascii) : -1 <= indexOf s c.
Proof.
  induction s as [|a s IH]; simpl; [lia|].
  destruct (Ascii.eqb a c); [lia|].
  destruct (Z.eqb_spec (indexOf s c) (-1)); lia.
Qed.

Lemma length_drop_chars (n : nat) (s : string) :
  String.length (drop_chars n s) = (String.length s - n)%nat.
Proof.
  revert s; induction n as [|n IH]; intros [|a s]; simpl; auto.
Qed.

Lemma slice_from_drop (s : string) (i : Z) :
  0 <= i <= Z.of_nat (String.length s) ->
  slice_from s i = drop_chars (Z.to_nat i) s.
Proof.
  intros Hi. unfold slice_from, slice, clamp_index.
  destruct (Z.ltb_spec i 0); [lia|].
  destruct (Z.ltb_spec (Z.of_nat (String.length s)) 0); [lia|].
  rewrite !Z.min_l by lia.
  generalize (length_drop_chars (Z.to_nat i) s).
  generalize (drop_chars (Z.to_nat i) s) as t. intros t Ht.
  replace (Z.to_nat (Z.of_nat (String.length s) - i)) with (String.length t) by lia.
  clear. induction t as [|a t IH]; simpl; [reflexivity|now rewrite IH].
Qed.

Lemma slice_prefix_take (s : string) (i : Z) :
  0 <= i <= Z.of_nat (String.length s) ->
  slice s 0 i = take_chars (Z.to_nat i) s.
Proof.
  intros Hi. unfold slice, clamp_index.
  destruct (Z.ltb_spec i 0); [lia|]. simpl (0 <? 0).
  cbv iota. rewrite !Z.min_l by lia. rewrite Z.sub_0_r. reflexivity.
Qed.

(** The measure of the [while] loop: each iteration shortens [buffer]. *)
Lemma slice_from_shorter (buffer : string) (newlineIndex : Z) :
  indexOf buffer newline = newlineIndex -> newlineIndex <> -1 ->
  (String.length (slice_from buffer (newlineIndex + 1)) < String.length buffer)%nat.
Proof.
  intros <- Hne. pose proof (indexOf_range buffer newline Hne).
  rewrite slice_from_drop, length_drop_chars by lia. lia.
Qed.

(** The loop
    [while ((newlineIndex = buffer.indexOf('\n')) !== -1) { ... }]:
    the messages handed to [handleMessage], in order, and the final
    [buffer]. *)
Equations process_complete_messages (buffer : string) : list string * string
  by wf (String.length buffer) lt :=
process_complete_messages buffer with Z.eq_dec (indexOf buffer newline) (-1) := {
  | left _ => ([], buffer)
  | right Hne =>
      let newlineIndex := indexOf buffer newline in
      let message := slice buffer 0 newlineIndex in
      let r := process_complete_messages (slice_from buffer (newlineIndex + 1)) in
      (message :: fst r, snd r) }.
Next Obligation. intros. now apply slice_from_shorter. Qed.

(** [socket.on('data', data => { buffer += data.toString(); ... })], with
    [data] the decoded chunk. *)
Definition on_data (buffer : string) (data : string) : list string * string :=
  let buffer := (buffer ++ data)%string in
  process_complete_messages buffer.

End Framing.

(** ** Data model *)

(** Values of untyped ([any]) data that crosses the bridge boundary. *)
#[warnings="-register-all"]
Inductive any : Type :=
| any_null
| any_bool (b : bool)
| any_number (n : JS.number)
| any_string (s : string)
| any_array (items : list any)
| any_object (fields : list (string * any)).

(** [[number, number, number]]. *)
Definition rgb : Type := JS.number * JS.number * JS.number.

(** Property values of the state objects handed to the bridge. *)
Inductive JsVal : Type :=
| VUndefined
| VBool (b : bool)
| VNum (n : JS.number)
| VStr (s : string)
| VRgb (c : rgb).

(** An object literal such as [{ on: true, bri: 254 }]: a finite map from
    property names to values. *)
Definition obj (fields : list (string * JsVal)) : gmap string JsVal :=
  list_to_map fields.

(** A thrown value; [error.message] may be undefined. *)
Record Error : Type := { message : option string }.

(** The TypeError of a property read on [undefined] or [null], in the
    wording of V8. *)
Definition TypeError_read (base prop : string) : Error :=
  {| message := Some ("Cannot read properties of " ++ base ++
                      " (reading '" ++ prop ++ "')")%string |}.

Inductive Alert : Type := alert_none | alert_select | alert_lselect.

Module MCPCommand.
Record t : Type := {
  type : string;
  lightId : option string;
  color : option rgb;
  times : option JS.number;
  brightness : option JS.number;
  effectType : option string;
  transitionTime : option JS.number;
  alert : option Alert;
  temperature : option JS.number;
  scene : option string;
  group : option string;
  duration : option JS.number;
  speed : option JS.number
}.

(** [{ type: ty }], every optional field absent. *)
Definition bare (ty : string) : t :=
  {| type := ty; lightId := None; color := None; times := None;
     brightness := None; effectType := None; transitionTime := None;
     alert := None; temperature := None; scene := None; group := None;
     duration := None; speed := None |}.
End MCPCommand.

(** Objects returned by the bridge. *)
Module Light.
Record t : Type := { id : string; name : string; state : any; other : any }.
End Light.

Module Group.
Record t : Type :=
  { id : string; name : string; lights : list string; state : any; other : any }.
End Group.

Module Scene.
Record t : Type :=
  { id : string; name : string; lights : list string; other : any }.
End Scene.

Module MCPResponse.
Record light : Type := { l_id : string; l_name : string; l_state : any }.
Record group : Type :=
  { g_id : string; g_name : string; g_lights : list string; g_state : any }.
Record scene : Type := { s_id : string; s_name : string; s_lights : list string }.
Record schedule : Type :=
  { sch_id : string; sch_name : string; sch_description : string;
    sch_localtime : string; sch_status : string }.

Record t : Type := {
  type : string;
  error : option string;
  success : option bool;
  lights : option (list light);
  groups : option (list group);
  scenes : option (list scene);
  schedules : option (list schedule)
}.

Definition mk_error (e : string) : t :=
  {| type := "error"; error := Some e; success := None; lights := None;
     groups := None; scenes := None; schedules := None |}.

Definition mk_success : t :=
  {| type := "success"; error := None; success := Some true; lights := None;
     groups := None; scenes := None; schedules := None |}.

Definition mk_lights_list (ls : list light) : t :=
  {| type := "lights_list"; error := None; success := None; lights := Some ls;
     groups := None; scenes := None; schedules := None |}.

Definition mk_groups_list (gs : list group) : t :=
  {| type := "groups_list"; error := None; success := None; lights := None;
     groups := Some gs; scenes := None; schedules := None |}.

Definition mk_scenes_list (ss : list scene) : t :=
  {| type := "scenes_list"; error := None; success := None; lights := None;
     groups := None; scenes := Some ss; schedules := None |}.
End MCPResponse.

(** ** The bridge and the world *)

(** Calls on the bridge session ([state.bridge]). *)
Inductive BridgeCall : Type :=
| lights_getAll
| groups_getAll
| scenes_getAll
| lights_setLightState (id : string) (st : gmap string JsVal)
| groups_setGroupState (id : string) (st : gmap string JsVal)
| scenes_activateScene (id : string).

(** The settlement of a promise. *)
Inductive Settled (A : Type) : Type :=
| Resolved (a : A)
| Rejected (e : Error).
Arguments Resolved {A} a.
Arguments Rejected {A} e.

(** The bridge session: how each call settles, given the calls the bridge
    has received before. *)
Record Bridge : Type := {
  on_lights_getAll : list BridgeCall -> Settled (list Light.t);
  on_groups_getAll : list BridgeCall -> Settled (list Group.t);
  on_scenes_getAll : list BridgeCall -> Settled (list Scene.t);
  on_setLightState : list BridgeCall -> string -> gmap string JsVal -> Settled any;
  on_setGroupState : list BridgeCall -> string -> gmap string JsVal -> Settled any;
  on_activateScene : list BridgeCall -> string -> Settled any
}.

(** The module-level [state: HueState]. *)
Record HueState : Type := {
  bridge : option Bridge;        (* [null] until connected *)
  lights : list Light.t
}.

(** What is written on the socket: [JSON.stringify(o) + '\n']. *)
Inductive Written : Type :=
| WResponse (r : MCPResponse.t)
| WHello (version : string) (capabilities : list string).

Inductive Event : Type :=
| EBridge (c : BridgeCall)      (* a call received by the bridge *)
| ESleep (ms : Z)               (* [await new Promise(r => setTimeout(r, ms))] *)
| EWrite (socket : nat) (o : Written)   (* [socket.write] *)
| EClose (socket : nat).        (* [socket.end] / [socket.destroy] *)

(** The variables captured by the callback that [disco] passes to
    [setInterval], and the timer itself. *)
Record Interval : Type := {
  i_lightId : string;
  i_duration : JS.number;
  i_speed : JS.number;           (* the period handed to [setInterval] *)
  i_colorIndex : nat;
  i_startTime : Z;
  i_cleared : bool               (* [clearInterval(interval)] was called *)
}.

Record World : Type := {
  state : HueState;
  Date_now : Z;                  (* milliseconds *)
  intervals : list Interval;     (* indexed by timer id *)
  trace : list Event             (* oldest first *)
}.

Definition bridge_calls (tr : list Event) : list BridgeCall :=
  omap (fun e => match e with EBridge c => Some c | _ => None end) tr.

Definition socket_writes (tr : list Event) : list (nat * Written) :=
  omap (fun e => match e with EWrite s o => Some (s, o) | _ => None end) tr.

Definition socket_closes (tr : list Event) : list nat :=
  omap (fun e => match e with EClose s => Some s | _ => None end) tr.

(** ** The monad of asynchronous code: state over [World], exceptions *)

Inductive Outcome (A : Type) : Type :=
| Return (a : A)
| Throw (e : Error).
Arguments Return {A} a.
Arguments Throw {A} e.

Definition M (A : Type) : Type := World -> Outcome A * World.

Definition ret {A : Type} (a : A) : M A := fun w => (Return a, w).

Definition throw {A : Type} (e : Error) : M A := fun w => (Throw e, w).

Definition bind {A B : Type} (m : M A) (k : A -> M B) : M B :=
  fun w =>
    match m w with
    | (Return a, w') => k a w'
    | (Throw e, w') => (Throw e, w')
    end.

(** [try { body } catch (error) { handler }]. *)
Definition try_catch {A : Type} (body : M A) (handler : Error -> M A) : M A :=
  fun w =>
    match body w with
    | (Return a, w') => (Return a, w')
    | (Throw e, w') => handler e w'
    end.

Declare Scope js_scope.
Delimit Scope js_scope with js.
Notation "x <- m ;; k" := (bind m (fun x => k))
  (at level 100, m at next level, right associativity) : js_scope.
Notation "m ;;; k" := (bind m (fun _ => k))
  (at level 100, right associativity) : js_scope.
Local Open Scope js_scope.

(** The world after one more observable event. *)
Definition record_event (e : Event) (w : World) : World :=
  {| state := state w; Date_now := Date_now w; intervals := intervals w;
     trace := trace w ++ [e] |}.

Definition emit (e : Event) : M unit := fun w => (Return tt, record_event e w).

(** Reading [state.bridge.<prop>]: a TypeError while [state.bridge] is
    [null]. *)
Definition state_bridge (prop : string) : M Bridge :=
  fun w =>
    match bridge (state w) with
    | Some b => (Return b, w)
    | None => (Throw (TypeError_read "null" prop), w)
    end.

(** [await] on a call of the bridge: the call is received, then the promise
    settles. *)
Definition await_bridge {A : Type} (c : BridgeCall)
    (settle : list BridgeCall -> Settled A) : M A :=
  fun w =>
    let received := bridge_calls (trace w) in
    match emit (EBridge c) w with
    | (_, w') =>
        match settle received with
        | Resolved a => (Return a, w')
        | Rejected e => (Throw e, w')
        end
    end.

Definition bridge_lights_getAll : M (list Light.t) :=
  b <- state_bridge "lights";;
  await_bridge lights_getAll (on_lights_getAll b).

Definition bridge_groups_getAll : M (list Group.t) :=
  b <- state_bridge "groups";;
  await_bridge groups_getAll (on_groups_getAll b).

Definition bridge_scenes_getAll : M (list Scene.t) :=
  b <- state_bridge "scenes";;
  await_bridge scenes_getAll (on_scenes_getAll b).

Definition bridge_lights_setLightState (id : string) (st : gmap string JsVal) : M any :=
  b <- state_bridge "lights";;
  await_bridge (lights_setLightState id st) (fun h => on_setLightState b h id st).

Definition bridge_groups_setGroupState (id : string) (st : gmap string JsVal) : M any :=
  b <- state_bridge "groups";;
  await_bridge (groups_setGroupState id st) (fun h => on_setGroupState b h id st).

Definition bridge_scenes_activateScene (id : string) : M any :=
  b <- state_bridge "scenes";;
  await_bridge (scenes_activateScene id) (fun h => on_activateScene b h id).

(** The world [ms] milliseconds later. *)
Definition advance_clock (ms : Z) (w : World) : World :=
{| state := state w; Date_now := Date_now w + ms; intervals := intervals w;
   trace := trace w |}.

(** [await new Promise(resolve => setTimeout(resolve, ms))]. *)
Definition sleep (ms : Z) : M unit :=
fun w => (Return tt, record_event (ESleep ms) (advance_clock ms w)).

Definition socket_write (socket : nat) (o : Written) : M unit :=
  emit (EWrite socket o).

Definition get_Date_now : M Z := fun w => (Return (Date_now w), w).

Definition get_state : M HueState := fun w => (Return (state w), w).

(** The world with one more timer. *)
Definition register_interval (j : Interval) (w : World) : World :=
{| state := state w; Date_now := Date_now w;
   intervals := intervals w ++ [j]; trace := trace w |}.

(** [setInterval(callback, speed)]: registers the timer and returns its id. *)
Definition setInterval (j : Interval) : M nat :=
fun w => (Return (length (intervals w)), register_interval j w).

Definition get_interval (id : nat) : M (option Interval) :=
  fun w => (Return (intervals w !! id), w).

(** The world with the captured variables of timer [id] replaced. *)
Definition update_interval (id : nat) (j : Interval) (w : World) : World :=
{| state := state w; Date_now := Date_now w;
   intervals := <[id := j]> (intervals w); trace := trace w |}.

Definition set_interval (id : nat) (j : Interval) : M unit :=
fun w => (Return tt, update_interval id j w).

(** ** Command interpreter *)

Module Interpreter.
Import JS.

(** [x] when [x] is truthy: the narrowing done by a guard [if (!x) return]. *)
Definition truthy_string (x : option string) : option string :=
  match x with
  | Some s => if truthy_str s then Some s else None
  | None => None
  end.

Definition truthy_number (x : option number) : option number :=
  match x with
  | Some n => if truthy_num n then Some n else None
  | None => None
  end.

(** The labels of [switch (command.type)]. *)
Inductive Case : Type :=
| case_get_lights | case_get_groups | case_get_scenes | case_set_color
| case_flash | case_set_brightness | case_set_effect | case_set_temperature
| case_activate_scene | case_set_group_state | case_disco | case_turn_off
| case_default.

Definition switch (type : string) : Case :=
  if String.eqb type "get_lights" then case_get_lights
  else if String.eqb type "get_groups" then case_get_groups
  else if String.eqb type "get_scenes" then case_get_scenes
  else if String.eqb type "set_color" then case_set_color
  else if String.eqb type "flash" then case_flash
  else if String.eqb type "set_brightness" then case_set_brightness
  else if String.eqb type "set_effect" then case_set_effect
  else if String.eqb type "set_temperature" then case_set_temperature
  else if String.eqb type "activate_scene" then case_activate_scene
  else if String.eqb type "set_group_state" then case_set_group_state
  else if String.eqb type "disco" then case_disco
  else if String.eqb type "turn_off" then case_turn_off
  else case_default.

(** [{ on: true, bri: 254, rgb: color }] and [{ on: false }]. *)
Definition on_at_color (color : rgb) : gmap string JsVal :=
  obj [("on", VBool true); ("bri", VNum (num 254)); ("rgb", VRgb color)].

Definition off : gmap string JsVal := obj [("on", VBool false)].

(** The iterations of [for (let i = 0; i < times; i++)] are bounded by
    the ceiling of [times - i]. *)
Lemma flash_loop_measure (times i : number) :
  (i < times)%Q ->
  (Z.to_nat (Qceiling (times - (i + 1))) < Z.to_nat (Qceiling (times - i)))%nat.
Proof.
  intros Hlt.
  pose proof (Qle_ceiling (times - i)) as Hc.
  pose proof (Qceiling_lt (times - (i + 1))) as Hc'.
  unfold Z.sub in Hc'. rewrite inject_Z_plus, inject_Z_opp in Hc'.
  change (inject_Z 1) with 1%Q in Hc'.
  enough (H : (inject_Z 0 < inject_Z (Qceiling (times - i)))%Q /\
              (inject_Z (Qceiling (times - (i + 1)))
               < inject_Z (Qceiling (times - i)))%Q)
    by (rewrite <- !Zlt_Qlt in H; lia).
  change (inject_Z 0) with 0%Q.
  generalize dependent (inject_Z (Qceiling (times - i))).
  generalize dependent (inject_Z (Qceiling (times - (i + 1)))).
  intros c' Hc' c Hc. split; lra.
Qed.

(** The [for] loop of [flash], from counter value [i]. *)
Equations flash_loop (lightId : string) (color : rgb) (times i : number) : M unit
  by wf (Z.to_nat (Qceiling (times - i))) lt :=
flash_loop lightId color times i with Qlt_le_dec i times := {
  | left Hlt =>
      bridge_lights_setLightState lightId (on_at_color color) ;;;
      sleep 500 ;;;
      bridge_lights_setLightState lightId off ;;;
      sleep 500 ;;;
      flash_loop lightId color times (i + 1)%Q
  | right _ => ret tt }.
Next Obligation. intros. now apply flash_loop_measure. Qed.

(** The palette of [disco]. *)
Definition colors : list rgb :=
  [ (num 255, num 0, num 0);       (* Red *)
    (num 255, num 0, num 255);     (* Purple *)
    (num 0, num 0, num 255);       (* Blue *)
    (num 0, num 255, num 255);     (* Cyan *)
    (num 0, num 255, num 0);       (* Green *)
    (num 255, num 255, num 0) ].   (* Yellow *)

(** [colors[colorIndex]]. *)
Definition colors_at (colorIndex : nat) : JsVal :=
  match colors !! colorIndex with
  | Some c => VRgb c
  | None => VUndefined
  end.

(** [clearInterval(interval)]. *)
Definition clearInterval (id : nat) : M unit :=
  j <- get_interval id ;;
  match j with
  | Some j =>
      set_interval id
        {| i_lightId := i_lightId j; i_duration := i_duration j;
           i_speed := i_speed j; i_colorIndex := i_colorIndex j;
           i_startTime := i_startTime j; i_cleared := true |}
  | None => ret tt
  end.

(** The callback that [disco] hands to [setInterval]; [colorIndex] lives
    in the captured variables of timer [id].  The [console.error] of the
    [catch] clause is not observable on the socket or the bridge. *)
Definition disco_callback (id : nat) : M unit :=
  j <- get_interval id ;;
  match j with
  | None => ret tt
  | Some j =>
      try_catch
        (bridge_lights_setLightState (i_lightId j)
           (obj [("on", VBool true); ("bri", VNum (num 254));
                 ("rgb", colors_at (i_colorIndex j));
                 ("transitiontime", VNum (num 0))]) ;;;
         set_interval id
           {| i_lightId := i_lightId j; i_duration := i_duration j;
              i_speed := i_speed j;
              i_colorIndex := ((i_colorIndex j + 1) mod length colors)%nat;
              i_startTime := i_startTime j; i_cleared := i_cleared j |} ;;;
         now <- get_Date_now ;;
         if Qle_bool (i_duration j * num 1000) (num (now - i_startTime j))
         then clearInterval id
         else ret tt)
        (fun error => ret tt)
  end.

(** The timer of [setInterval] firing: the callback runs, to completion,
    unless the interval was cleared. *)
Definition interval_fires (id : nat) : M unit :=
  j <- get_interval id ;;
  match j with
  | Some j => if i_cleared j then ret tt else disco_callback id
  | None => ret tt
  end.

(** Time passing on the event loop. *)
Definition elapse (ms : Z) : M unit := fun w => (Return tt, advance_clock ms w).

(** Successive firings of timer [id], [ms] milliseconds apart for each
    [ms] of [delays]. *)
Fixpoint run_interval (id : nat) (delays : list Z) : M unit :=
  match delays with
  | [] => ret tt
  | ms :: delays' => elapse ms ;;; interval_fires id ;;; run_interval id delays'
  end.

Definition project_light (light : Light.t) : MCPResponse.light :=
  {| MCPResponse.l_id := Light.id light;
     MCPResponse.l_name := Light.name light;
     MCPResponse.l_state := Light.state light |}.

Definition project_group (group : Group.t) : MCPResponse.group :=
  {| MCPResponse.g_id := Group.id group;
     MCPResponse.g_name := Group.name group;
     MCPResponse.g_lights := Group.lights group;
     MCPResponse.g_state := Group.state group |}.

Definition project_scene (scene : Scene.t) : MCPResponse.scene :=
  {| MCPResponse.s_id := Scene.id scene;
     MCPResponse.s_name := Scene.name scene;
     MCPResponse.s_lights := Scene.lights scene |}.

(** [{ type: 'error', error: error.message || fallback }]. *)
Definition error_of (error : Error) (fallback : string) : MCPResponse.t :=
  MCPResponse.mk_error (or_str (message error) fallback).

Import MCPCommand.

(** The object that the [set_group_state] case builds, property by
    property, from the fields of the command. *)
Definition group_state_object (command : MCPCommand.t) : gmap string JsVal :=
  let state : gmap string JsVal := ∅ in
  let state :=
    match color command with
    | Some color => <["rgb" := VRgb color]> state
    | None => state
    end in
  let state :=
    match brightness command with
    | Some brightness =>
        <["bri" := VNum (num (Math_round (brightness / num 100 * num 254)))]> state
    | None => state
    end in
  let state :=
    match truthy_number (temperature command) with
    | Some temperature =>
        <["ct" := VNum (num (Math_round (num 1000000 / temperature)))]> state
    | None => state
    end in
  let state :=
    match truthy_string (effectType command) with
    | Some effectType => <["effect" := VStr effectType]> state
    | None => state
    end in
  state.

Definition handleCommand (command : MCPCommand.t) : M MCPResponse.t :=
  match switch (type command) with
  | case_get_lights =>
      s <- get_state ;;
      ret (MCPResponse.mk_lights_list (map project_light (lights s)))

  | case_get_groups =>
      groups <- bridge_groups_getAll ;;
      ret (MCPResponse.mk_groups_list (map project_group groups))

  | case_get_scenes =>
      scenes <- bridge_scenes_getAll ;;
      ret (MCPResponse.mk_scenes_list (map project_scene scenes))

  | case_set_color =>
      match truthy_string (lightId command), color command with
      | Some lightId, Some color =>
          try_catch
            (bridge_lights_setLightState lightId
               (obj [("on", VBool true); ("bri", VNum (num 254));
                     ("rgb", VRgb color)]) ;;;
             ret MCPResponse.mk_success)
            (fun error => ret (error_of error "Failed to set light color"))
      | _, _ => ret (MCPResponse.mk_error "Missing lightId or color")
      end

  | case_flash =>
      match truthy_string (lightId command), color command with
      | Some lightId, Some color =>
          try_catch
            (let times := or_num (times command) (num 3) in
             flash_loop lightId color times (num 0) ;;;
             bridge_lights_setLightState lightId (on_at_color color) ;;;
             ret MCPResponse.mk_success)
            (fun error => ret (error_of error "Failed to flash light"))
      | _, _ => ret (MCPResponse.mk_error "Missing lightId or color")
      end

  | case_set_brightness =>
      match truthy_string (lightId command), brightness command with
      | Some lightId, Some brightness =>
          try_catch
            (let bri := Math_round (brightness / num 100 * num 254) in
             bridge_lights_setLightState lightId
               (obj [("on", VBool true); ("bri", VNum (num bri))]) ;;;
             ret MCPResponse.mk_success)
            (fun error => ret (error_of error "Failed to set brightness"))
      | _, _ => ret (MCPResponse.mk_error "Missing lightId or brightness")
      end

  | case_set_effect =>
      match truthy_string (lightId command), truthy_string (effectType command) with
      | Some lightId, Some effectType =>
          try_catch
            (bridge_lights_setLightState lightId
               (obj [("effect", VStr effectType)]) ;;;
             ret MCPResponse.mk_success)
            (fun error => ret (error_of error "Failed to set effect"))
      | _, _ => ret (MCPResponse.mk_error "Missing lightId or effectType")
      end

  | case_set_temperature =>
      match truthy_string (lightId command), truthy_number (temperature command) with
      | Some lightId, Some temperature =>
          try_catch
            (let ct := Math_round (num 1000000 / temperature) in
             bridge_lights_setLightState lightId
               (obj [("on", VBool true); ("ct", VNum (num ct))]) ;;;
             ret MCPResponse.mk_success)
            (fun error => ret (error_of error "Failed to set color temperature"))
      | _, _ => ret (MCPResponse.mk_error "Missing lightId or temperature")
      end

  | case_activate_scene =>
      match truthy_string (scene command) with
      | Some scene =>
          try_catch
            (bridge_scenes_activateScene scene ;;;
             ret MCPResponse.mk_success)
            (fun error => ret (error_of error "Failed to activate scene"))
      | None => ret (MCPResponse.mk_error "Missing scene identifier")
      end

  | case_set_group_state =>
      match truthy_string (group command) with
      | Some group =>
          try_catch
            ((* [const state: any = {}]: from here to the end of the [try]
                block the name [state] is this object, not the
                module-level [state]. *)
             let state : gmap string JsVal := group_state_object command in
             (* [await state.bridge.groups.setGroupState(command.group, state)] *)
             match state !! "bridge" with
             | None | Some VUndefined =>
                 throw (TypeError_read "undefined" "groups")
             | Some _ =>
                 throw (TypeError_read "undefined" "setGroupState")
             end)
            (fun error => ret (error_of error "Failed to set group state"))
      | None => ret (MCPResponse.mk_error "Missing group identifier")
      end

  | case_disco =>
      match truthy_string (lightId command) with
      | Some lightId =>
          try_catch
            (let duration := or_num (duration command) (num 30) in
             let speed := or_num (speed command) (num 500) in
             let colorIndex := 0%nat in
             startTime <- get_Date_now ;;
             interval <- setInterval
               {| i_lightId := lightId; i_duration := duration;
                  i_speed := speed; i_colorIndex := colorIndex;
                  i_startTime := startTime; i_cleared := false |} ;;
             ret MCPResponse.mk_success)
            (fun error => ret (error_of error "Failed to start disco effect"))
      | None => ret (MCPResponse.mk_error "Missing lightId")
      end

  | case_turn_off =>
      match truthy_string (lightId command) with
      | Some lightId =>
          try_catch
            (bridge_lights_setLightState lightId (obj [("on", VBool false)]) ;;;
             ret MCPResponse.mk_success)
            (fun error => ret (error_of error "Failed to turn off light"))
      | None => ret (MCPResponse.mk_error "Missing lightId")
      end

  | case_default => ret (MCPResponse.mk_error "Unknown command")
  end.

End Interpreter.

(** ** Session layer: [handleMessage], the connection handler, start-up *)

Module Server.
Import JS Interpreter.

Section Platform.

(** [JSON.parse] at type [MCPCommand]: the decoded command, or the
    SyntaxError it throws. *)
Variable JSON_parse : string -> Outcome MCPCommand.t.

Definition handleMessage (message : string) (socket : nat) : M unit :=
  try_catch
    (command <- (fun w => (JSON_parse message, w)) ;;
     response <- handleCommand command ;;
     socket_write socket (WResponse response))
    (fun error =>
       socket_write socket (WResponse (error_of error "Invalid command format"))).

(** [handleMessage(message, socket).catch(error => ...)]. *)
Definition dispatch (message : string) (socket : nat) : M unit :=
  try_catch
    (handleMessage message socket)
    (fun error =>
       socket_write socket
         (WResponse (MCPResponse.mk_error "Internal server error"))).

Fixpoint dispatch_all (messages : list string) (socket : nat) : M unit :=
  match messages with
  | [] => ret tt
  | message :: rest => dispatch message socket ;;; dispatch_all rest socket
  end.

(** The [data] handler run to completion, each message being handled
    before the next one starts; the result is the connection's new
    [buffer]. *)
Definition socket_on_data (buffer : string) (data : string) (socket : nat)
  : M string :=
  let '(messages, buffer) := Framing.on_data buffer data in
  dispatch_all messages socket ;;;
  ret buffer.

(** What the event loop runs after start-up: a message line handled
    for a connection, a timer of [setInterval] firing, time passing. *)
Inductive Step : Type :=
| step_message (socket : nat) (message : string)
| step_timer (id : nat)
| step_elapse (ms : Z).

Definition run_step (s : Step) : M unit :=
  match s with
  | step_message socket message => dispatch message socket
  | step_timer id => interval_fires id
  | step_elapse ms => elapse ms
  end.

Fixpoint run (steps : list Step) : M unit :=
  match steps with
  | [] => ret tt
  | s :: rest => run_step s ;;; run rest
  end.

End Platform.

Definition capabilities : list string :=
  ["lights"; "colors"; "flash"; "brightness"; "effects"; "temperature";
   "scenes"; "groups"; "disco"].

(** The connection listener of [createServer]: [buffer = ''] and the
    hello message. *)
Definition on_connection (socket : nat) : M string :=
  let buffer := "" in
  socket_write socket (WHello "1.0.0" capabilities) ;;;
  ret buffer.

Definition set_state (s : HueState) : M unit :=
  fun w =>
    (Return tt,
     {| state := s; Date_now := Date_now w; intervals := intervals w;
        trace := trace w |}).

(** [initializeHueBridge], with [process.env.HUE_BRIDGE_IP],
    [process.env.HUE_USERNAME] and the settlement of
    [v3.api.createLocal(host).connect(username)]. *)
Definition initializeHueBridge (HUE_BRIDGE_IP HUE_USERNAME : option string)
    (connect : string -> string -> Settled Bridge) : M unit :=
  try_catch
    (match truthy_string HUE_BRIDGE_IP, truthy_string HUE_USERNAME with
     | Some host, Some username =>
         b <- (fun w => match connect host username with
                        | Resolved b => (Return b, w)
                        | Rejected e => (Throw e, w)
                        end) ;;
         s <- get_state ;;
         set_state {| bridge := Some b; lights := lights s |} ;;;
         ls <- bridge_lights_getAll ;;
         s <- get_state ;;
         set_state {| bridge := bridge s; lights := ls |}
     | _, _ =>
         throw {| message :=
           Some "HUE_BRIDGE_IP and HUE_USERNAME environment variables must be set" |}
     end)
    (fun error => throw error).

(** The process at load time: [state = { bridge: null, lights: [] }]. *)
Definition initial_world (now : Z) : World :=
  {| state := {| bridge := None; lights := [] |}; Date_now := now;
     intervals := []; trace := [] |}.

End Server.

(** ** Sample bridges, worlds and commands *)

Module Fixtures.
Import JS Interpreter Server.

Definition kitchen : Light.t :=
  {| Light.id := "1"; Light.name := "Kitchen";
     Light.state := any_object [("on", any_bool true); ("bri", any_number (num 254))];
     Light.other := any_object [("type", any_string "Extended color light")] |}.

Definition kitchen_dimmed : Light.t :=
  {| Light.id := "1"; Light.name := "Kitchen";
     Light.state := any_object [("on", any_bool true); ("bri", any_number (num 40))];
     Light.other := any_object [("type", any_string "Extended color light")] |}.

Definition upstairs : Group.t :=
  {| Group.id := "7"; Group.name := "Upstairs"; Group.lights := ["1"; "2"];
     Group.state := any_object [("any_on", any_bool false)];
     Group.other := any_null |}.

Definition sunset : Scene.t :=
  {| Scene.id := "abc123"; Scene.name := "Sunset"; Scene.lights := ["1"];
     Scene.other := any_null |}.

(** A bridge on which every call resolves. *)
Definition bridge_accepting (ls : list Light.t) : Bridge :=
  {| on_lights_getAll := fun _ => Resolved ls;
     on_groups_getAll := fun _ => Resolved [upstairs];
     on_scenes_getAll := fun _ => Resolved [sunset];
     on_setLightState := fun _ _ _ => Resolved (any_bool true);
     on_setGroupState := fun _ _ _ => Resolved (any_bool true);
     on_activateScene := fun _ _ => Resolved (any_bool true) |}.

(** A bridge whose lights change after the first call it receives: the
    first fetch reports [kitchen], every later one [kitchen_dimmed]. *)
Definition bridge_drifting : Bridge :=
{| on_lights_getAll := fun received =>
     match received with
     | [] => Resolved [kitchen]
     | _ :: _ => Resolved [kitchen_dimmed]
     end;
   on_groups_getAll := fun _ => Resolved [upstairs];
   on_scenes_getAll := fun _ => Resolved [sunset];
   on_setLightState := fun _ _ _ => Resolved (any_bool true);
   on_setGroupState := fun _ _ _ => Resolved (any_bool true);
   on_activateScene := fun _ _ => Resolved (any_bool true) |}.

(** The server just after a start-up against [bridge_drifting]. *)
Definition after_startup : World :=
{| state := {| bridge := Some bridge_drifting; lights := [kitchen] |};
   Date_now := 1000; intervals := []; trace := [EBridge lights_getAll] |}.

(** A bridge on which every call rejects with [reason]. *)
Definition bridge_rejecting (reason : option string) : Bridge :=
  let e := {| message := reason |} in
  {| on_lights_getAll := fun _ => Rejected e;
     on_groups_getAll := fun _ => Rejected e;
     on_scenes_getAll := fun _ => Rejected e;
     on_setLightState := fun _ _ _ => Rejected e;
     on_setGroupState := fun _ _ _ => Rejected e;
     on_activateScene := fun _ _ => Rejected e |}.

(** A started server: connected to [b], holding the light list [ls]. *)
Definition started (b : Bridge) (ls : list Light.t) : World :=
  {| state := {| bridge := Some b; lights := ls |}; Date_now := 1000;
     intervals := []; trace := [] |}.

Definition green : rgb := (num 0, num 255, num 0).

Definition with_light (ty lightId : string) : MCPCommand.t :=
  {| MCPCommand.type := ty; MCPCommand.lightId := Some lightId;
     MCPCommand.color := None; MCPCommand.times := None;
     MCPCommand.brightness := None; MCPCommand.effectType := None;
     MCPCommand.transitionTime := None; MCPCommand.alert := None;
     MCPCommand.temperature := None; MCPCommand.scene := None;
     MCPCommand.group := None; MCPCommand.duration := None;
     MCPCommand.speed := None |}.

(** [{"type":"flash","lightId":"2","color":[0,255,0],"times":t}]. *)
Definition flash_command (t : option number) : MCPCommand.t :=
  {| MCPCommand.type := "flash"; MCPCommand.lightId := Some "2";
     MCPCommand.color := Some green; MCPCommand.times := t;
     MCPCommand.brightness := None; MCPCommand.effectType := None;
     MCPCommand.transitionTime := None; MCPCommand.alert := None;
     MCPCommand.temperature := None; MCPCommand.scene := None;
     MCPCommand.group := None; MCPCommand.duration := None;
     MCPCommand.speed := None |}.

(** [{"type":"set_brightness","lightId":"1","brightness":b}]. *)
Definition brightness_command (b : number) : MCPCommand.t :=
  {| MCPCommand.type := "set_brightness"; MCPCommand.lightId := Some "1";
     MCPCommand.color := None; MCPCommand.times := None;
     MCPCommand.brightness := Some b; MCPCommand.effectType := None;
     MCPCommand.transitionTime := None; MCPCommand.alert := None;
     MCPCommand.temperature := None; MCPCommand.scene := None;
     MCPCommand.group := None; MCPCommand.duration := None;
     MCPCommand.speed := None |}.

(** [{"type":"set_group_state","group":"7","color":[0,255,0],"brightness":50}]. *)
Definition group_command : MCPCommand.t :=
  {| MCPCommand.type := "set_group_state"; MCPCommand.lightId := None;
     MCPCommand.color := Some green; MCPCommand.times := None;
     MCPCommand.brightness := Some (num 50); MCPCommand.effectType := None;
     MCPCommand.transitionTime := None; MCPCommand.alert := None;
     MCPCommand.temperature := None; MCPCommand.scene := None;
     MCPCommand.group := Some "7"; MCPCommand.duration := None;
     MCPCommand.speed := None |}.

(** [{"type":"disco","lightId":"3","duration":d,"speed":s}]. *)
Definition disco_command (d s : option number) : MCPCommand.t :=
  {| MCPCommand.type := "disco"; MCPCommand.lightId := Some "3";
     MCPCommand.color := None; MCPCommand.times := None;
     MCPCommand.brightness := None; MCPCommand.effectType := None;
     MCPCommand.transitionTime := None; MCPCommand.alert := None;
     MCPCommand.temperature := None; MCPCommand.scene := None;
     MCPCommand.group := None; MCPCommand.duration := d;
     MCPCommand.speed := s |}.

(** The wire text of a few commands. *)
Definition quoted (s : string) : string :=
  String "034"%char (s ++ String "034"%char "")%string.

Definition key (k : string) : string := (quoted k ++ ":")%string.

(** [{"type":"get_groups"}]. *)
Definition line_get_groups : string :=
  ("{" ++ key "type" ++ quoted "get_groups" ++ "}")%string.

(** [{"type":"flash","lightId":"2","color":[0,255,0],"times":2}]. *)
Definition line_flash_twice : string :=
  ("{" ++ key "type" ++ quoted "flash" ++ "," ++ key "lightId" ++ quoted "2"
   ++ "," ++ key "color" ++ "[0,255,0]," ++ key "times" ++ "2}")%string.

(** A decoder that knows these lines and throws a SyntaxError on every
    other one. *)
Definition decode (message : string) : Outcome MCPCommand.t :=
  if String.eqb message line_get_groups then Return (MCPCommand.bare "get_groups")
  else if String.eqb message line_flash_twice then Return (flash_command (Some (num 2)))
  else Throw {| message := Some "Unexpected token in JSON at position 0" |}.

End Fixtures.


(** ** Start-up: [startMCPServer] and [main] of [src/index.ts] *)

Module Startup.
Import JS Interpreter Server.

Section Listener.

(** [server.listen(port, callback)], whatever it does. *)
Variable server_listen : number -> M unit.

(** The part of [startMCPServer] after [createServer]: the bridge is
    initialized, an error of the initialization is thrown again, and only
    then the server listens. *)
Definition startMCPServer (port : number)
    (HUE_BRIDGE_IP HUE_USERNAME : option string)
    (connect : string -> string -> Settled Bridge) : M unit :=
try_catch
  (initializeHueBridge HUE_BRIDGE_IP HUE_USERNAME connect)
  (fun error => throw error) ;;;
server_listen port.

(** How the process of [index.ts] goes on after [main]. *)
Inductive Process : Type :=
| Serving                (* [main] returned: the event loop runs the server *)
| Exited (code : Z).     (* [process.exit(code)] *)

(** [main], with [process.env.MCP_PORT] and [parseInt(_, 10)]. *)
Definition main (MCP_PORT : option string) (parseInt : string -> number)
    (HUE_BRIDGE_IP HUE_USERNAME : option string)
    (connect : string -> string -> Settled Bridge) : M Process :=
try_catch
  (let port :=
     match truthy_string MCP_PORT with
     | Some text => parseInt text
     | None => num 3000
     end in
   startMCPServer port HUE_BRIDGE_IP HUE_USERNAME connect ;;;
   ret Serving)
  (fun error => ret (Exited 1)).

End Listener.

End Startup.

(** ** Binary64 evaluation of a brightness of either sign *)

Module Binary64.

(** The binary64 number of a small integer literal of either sign. *)
Definition of_int (z : Z) : float :=
if z <? 0 then PrimFloat.opp (Double.of_Z (- z)) else Double.of_Z z.

(** [Math.round((brightness / 100) * 254)] for a brightness of either
    sign. *)
Definition bri (brightness : Z) : option Z :=
Double.Math_round
  (PrimFloat.mul (PrimFloat.div (of_int brightness) (Double.of_Z 100)) (Double.of_Z 254)).

End Binary64.

(** ** A connection over several reads *)

Module Connection.
Import JS Framing.

Section Reads.

(** [Buffer.prototype.toString] of the platform: the text that the bytes
    of one read decode to. *)
Variable toString : list Byte.byte -> string.

(** The [data] handler run on each read of [reads] in turn, each decoded
    on its own by [data.toString()], the connection's [buffer] being kept
    from one read to the next: the messages handed over, in order, and the
    final [buffer]. *)
Fixpoint feed (buffer : string) (reads : list (list Byte.byte))
  : list string * string :=
match reads with
| [] => ([], buffer)
| data :: later =>
    let '(messages, buffer) := on_data buffer (toString data) in
    let '(more, buffer) := feed buffer later in
    ((messages ++ more)%list, buffer)
end.

End Reads.

(** The decoded reads as one text. *)
Fixpoint joined (chunks : list string) : string :=
match chunks with
| [] => ""
| data :: later => (data ++ joined later)%string
end.

End Connection.

(** ** Vocabulary of the specification *)

Module Vocabulary.
Import JS Interpreter.

(** Re-joining framed messages: each followed by its newline. *)
Fixpoint join_lines (messages : list string) (rest : string) : string :=
  match messages with
  | [] => rest
  | m :: ms => (m ++ String newline (join_lines ms rest))%string
  end.

(** The bridge resolves every [setLightState] call. *)
Definition accepts_light_states (hue : Bridge) : Prop :=
forall (received : list BridgeCall) (id : string) (st : gmap string JsVal),
  exists a, on_setLightState hue received id st = Resolved a.

(** The two calls of a flash cycle: on at full brightness in the requested
    colour, and off. *)
Definition flash_on (lightId : string) (color : rgb) : BridgeCall :=
lights_setLightState lightId
  (obj [("on", VBool true); ("bri", VNum (num 254)); ("rgb", VRgb color)]).

Definition flash_off (lightId : string) : BridgeCall :=
lights_setLightState lightId (obj [("on", VBool false)]).

(** [n] cycles on, off and a final on. *)
Definition flash_calls (lightId : string) (color : rgb) (n : nat) : list BridgeCall :=
(concat (replicate n [flash_on lightId color; flash_off lightId])
 ++ [flash_on lightId color])%list.

(** The events of [m] iterations of the loop. *)
Definition loop_events (lightId : string) (color : rgb) (m : nat) : list Event :=
concat (replicate m [EBridge (flash_on lightId color); ESleep 500;
                   EBridge (flash_off lightId); ESleep 500]).

(** The state object of a tick. *)
Definition tick_state (colorIndex : nat) : gmap string JsVal :=
obj [("on", VBool true); ("bri", VNum (num 254));
     ("rgb", colors_at colorIndex); ("transitiontime", VNum (num 0))].

(** The captured variables after a tick that the bridge resolved at
    [Date.now() = now]. *)
Definition after_tick (j : Interval) (now : Z) : Interval :=
{| i_lightId := i_lightId j; i_duration := i_duration j; i_speed := i_speed j;
   i_colorIndex := ((i_colorIndex j + 1) mod 6)%nat;
   i_startTime := i_startTime j;
   i_cleared := Qle_bool (i_duration j * num 1000) (num (now - i_startTime j)) |}.

(** What the interpreter may do: calls on the bridge other than a fetch of
    the light list, and timed waits. *)
Definition internal (e : Event) : Prop :=
match e with
| EBridge lights_getAll => False
| EBridge _ => True
| ESleep _ => True
| EWrite _ _ => False
| EClose _ => False
end.

(** What the running server may do: the same, and writes on sockets. *)
Definition serving (e : Event) : Prop :=
match e with
| EBridge lights_getAll => False
| EClose _ => False
| _ => True
end.

(** [m] leaves the module-level [state] alone and only appends [allowed]
    events to the trace. *)
Definition frames (allowed : Event -> Prop) {A : Type} (m : M A) : Prop :=
forall w : World,
  state (snd (m w)) = state w
  /\ exists events, trace (snd (m w)) = (trace w ++ events)%list
                    /\ Forall allowed events.

(** The fields a command may be required to carry. *)
Inductive Field : Type :=
| field_lightId | field_color | field_brightness | field_effectType
| field_temperature | field_scene | field_group.

(** The table of the command interpreter's contract: each command type
    with its required fields. *)
Definition required_fields : list (string * list Field) :=
[ ("get_lights", []);
  ("get_groups", []);
  ("get_scenes", []);
  ("set_color", [field_lightId; field_color]);
  ("set_brightness", [field_lightId; field_brightness]);
  ("set_effect", [field_lightId; field_effectType]);
  ("set_temperature", [field_lightId; field_temperature]);
  ("activate_scene", [field_scene]);
  ("set_group_state", [field_group]);
  ("turn_off", [field_lightId]);
  ("flash", [field_lightId; field_color]);
  ("disco", [field_lightId]) ].

(** The command does not carry field [f]. *)
Definition absent (f : Field) (command : MCPCommand.t) : Prop :=
match f with
| field_lightId => MCPCommand.lightId command = None
| field_color => MCPCommand.color command = None
| field_brightness => MCPCommand.brightness command = None
| field_effectType => MCPCommand.effectType command = None
| field_temperature => MCPCommand.temperature command = None
| field_scene => MCPCommand.scene command = None
| field_group => MCPCommand.group command = None
end.

(** The type of the command is one of the enumerated set. *)
Definition recognized (type : string) : Prop := In type (map fst required_fields).

(** The type is recognized and one of its required fields is absent. *)
Definition lacks_required_field (command : MCPCommand.t) : Prop :=
exists (fields : list Field) (f : Field),
  In (MCPCommand.type command, fields) required_fields
  /\ In f fields /\ absent f command.

(** The reading of "every query re-fetches from the bridge": the answer to
    a [get_lights], [get_groups] or [get_scenes] command is the projection
    of what the bridge resolves when the command is handled, and the fetch
    is the one call the command adds to the trace. *)
Definition every_query_refetches : Prop :=
forall (command : MCPCommand.t) (w : World) (hue : Bridge),
  bridge (state w) = Some hue ->
  (MCPCommand.type command = "get_lights" ->
   forall ls, on_lights_getAll hue (bridge_calls (trace w)) = Resolved ls ->
     handleCommand command w
     = (Return (MCPResponse.mk_lights_list (map project_light ls)),
        record_event (EBridge lights_getAll) w))
  /\ (MCPCommand.type command = "get_groups" ->
      forall gs, on_groups_getAll hue (bridge_calls (trace w)) = Resolved gs ->
        handleCommand command w
        = (Return (MCPResponse.mk_groups_list (map project_group gs)),
           record_event (EBridge groups_getAll) w))
  /\ (MCPCommand.type command = "get_scenes" ->
      forall ss, on_scenes_getAll hue (bridge_calls (trace w)) = Resolved ss ->
        handleCommand command w
        = (Return (MCPResponse.mk_scenes_list (map project_scene ss)),
           record_event (EBridge scenes_getAll) w)).

End Vocabulary.


(** ** Further vocabulary *)

Module Terms.
Import JS Interpreter Server.

(** The response is one of the five shapes the interpreter builds: an
    error with a non-empty string and nothing else, the bare success flag,
    or one of the three lists. *)
Definition well_formed (r : MCPResponse.t) : Prop :=
(exists e : string, e <> "" /\ r = MCPResponse.mk_error e)
\/ r = MCPResponse.mk_success
\/ (exists ls, r = MCPResponse.mk_lights_list ls)
\/ (exists gs, r = MCPResponse.mk_groups_list gs)
\/ (exists ss, r = MCPResponse.mk_scenes_list ss).

(** Every normal result of [m] satisfies [P]. *)
Definition returns {A : Type} (P : A -> Prop) (m : M A) : Prop :=
forall (w : World) (a : A) (w' : World), m w = (Return a, w') -> P a.

(** [m] returns normally in every world. *)
Definition never_throws {A : Type} (m : M A) : Prop :=
forall w : World, exists (a : A) (w' : World), m w = (Return a, w').

(** The sockets of the message steps, in order. *)
Definition message_sockets (steps : list Step) : list nat :=
omap (fun s => match s with
               | step_message socket _ => Some socket
               | _ => None
               end) steps.

(** The bridge rejects every [setLightState] call. *)
Definition rejects_light_states (hue : Bridge) : Prop :=
forall (received : list BridgeCall) (id : string) (st : gmap string JsVal),
  exists e, on_setLightState hue received id st = Rejected e.

(** The call of a disco tick with the cursor at [colorIndex]. *)
Definition tick_call (lightId : string) (colorIndex : nat) : BridgeCall :=
lights_setLightState lightId
  (obj [("on", VBool true); ("bri", VNum (num 254));
        ("rgb", colors_at colorIndex); ("transitiontime", VNum (num 0))]).

(** [m] neither adds nor removes a timer and leaves the captured variables
    of timer [other] as they were. *)
Definition keeps_timer (other : nat) {A : Type} (m : M A) : Prop :=
forall w : World,
  intervals (snd (m w)) !! other = intervals w !! other
  /\ length (intervals (snd (m w))) = length (intervals w).

(** The worlds along one iteration of the loop. *)
Definition after_on (lightId : string) (color : rgb) (w : World) : World :=
record_event (ESleep 500) (advance_clock 500
  (record_event (EBridge (lights_setLightState lightId (on_at_color color))) w)).

Definition after_cycle (lightId : string) (color : rgb) (w : World) : World :=
record_event (ESleep 500) (advance_clock 500
  (record_event (EBridge (lights_setLightState lightId off)) (after_on lightId color w))).

(** The error thrown when a variable of the environment is missing. *)
Definition missing_environment : Error :=
{| message := Some "HUE_BRIDGE_IP and HUE_USERNAME environment variables must be set" |}.


End Terms.

(** ** Properties of the framing layer *)

Module FramingFacts.
Import JS Framing Server Vocabulary.

Lemma take_drop_at_index (s : string) (c : ascii) :
  indexOf s c <> -1 ->
  s = (take_chars (Z.to_nat (indexOf s c)) s
       ++ String c (drop_chars (S (Z.to_nat (indexOf s c))) s))%string
  /\ indexOf (take_chars (Z.to_nat (indexOf s c)) s) c = -1.
Proof.
  induction s as [|a s IH]; simpl; [congruence|].
  destruct (Ascii.eqb_spec a c) as [->|Hac]; [intros _; now simpl|].
  destruct (Z.eqb_spec (indexOf s c) (-1)) as [|Hne]; [congruence|].
  intros _. destruct (IH Hne) as [IH1 IH2].
  pose proof (indexOf_range s c Hne) as Hr.
  replace (Z.to_nat (indexOf s c + 1)) with (S (Z.to_nat (indexOf s c))) by lia.
  set (n := Z.to_nat (indexOf s c)) in *. split.
  - change (String a s = String a (take_chars n s ++ String c (drop_chars (S n) s))%string).
    now f_equal.
  - change (indexOf (String a (take_chars n s)) c = -1). simpl.
    destruct (Ascii.eqb_spec a c); [congruence|]. now rewrite IH2.
Qed.

Lemma split_at_newline (buffer : string) :
  indexOf buffer newline <> -1 ->
  buffer = (slice buffer 0 (indexOf buffer newline)
            ++ String newline (slice_from buffer (indexOf buffer newline + 1)))%string
  /\ indexOf (slice buffer 0 (indexOf buffer newline)) newline = -1.
Proof.
  intros Hne. pose proof (indexOf_range buffer newline Hne) as Hr.
  rewrite slice_prefix_take, slice_from_drop by lia.
  replace (Z.to_nat (indexOf buffer newline + 1))
    with (S (Z.to_nat (indexOf buffer newline))) by lia.
  now apply take_drop_at_index.
Qed.

Lemma process_complete_messages_spec (buffer : string) :
  buffer = join_lines (fst (process_complete_messages buffer))
                      (snd (process_complete_messages buffer))
  /\ Forall (fun m => indexOf m newline = -1) (fst (process_complete_messages buffer))
  /\ indexOf (snd (process_complete_messages buffer)) newline = -1.
Proof.
  funelim (process_complete_messages buffer); simpl.
  - auto.
  - destruct H as (H1 & H2 & H3).
    destruct (split_at_newline buffer Hne) as [S1 S2].
    split; [|split].
    + rewrite <- H1. exact S1.
    + constructor; assumption.
    + exact H3.
Qed.

Lemma process_complete_messages_unfold (buffer : string) :
  process_complete_messages buffer =
  if Z.eq_dec (indexOf buffer newline) (-1) then ([], buffer)
  else
    let newlineIndex := indexOf buffer newline in
    let r := process_complete_messages (slice_from buffer (newlineIndex + 1)) in
    (slice buffer 0 newlineIndex :: fst r, snd r).
Proof.
  funelim (process_complete_messages buffer); rewrite Heq; reflexivity.
Qed.

Lemma length_append (a b : string) :
  String.length (a ++ b)%string = (String.length a + String.length b)%nat.
Proof. induction a as [|x a IH]; simpl; [reflexivity|now rewrite IH]. Qed.

Lemma indexOf_append (a b : string) (c : ascii) :
  indexOf a c <> -1 -> indexOf (a ++ b)%string c = indexOf a c.
Proof.
  induction a as [|x a IH]; simpl; [congruence|].
  destruct (Ascii.eqb x c); [reflexivity|].
  destruct (Z.eqb_spec (indexOf a c) (-1)) as [|Hne]; [congruence|].
  intros _. rewrite (IH Hne).
  destruct (Z.eqb_spec (indexOf a c) (-1)); [congruence|reflexivity].
Qed.

Lemma take_chars_append (n : nat) (a b : string) :
  (n <= String.length a)%nat -> take_chars n (a ++ b)%string = take_chars n a.
Proof.
  revert a; induction n as [|n IH]; intros [|x a]; simpl; intros H;
    try reflexivity; try lia.
  now rewrite IH by lia.
Qed.

Lemma drop_chars_append (n : nat) (a b : string) :
  (n <= String.length a)%nat ->
  drop_chars n (a ++ b)%string = (drop_chars n a ++ b)%string.
Proof.
  revert a; induction n as [|n IH]; intros [|x a]; simpl; intros H;
    try reflexivity; try lia.
  now rewrite IH by lia.
Qed.

(** Feeding [a] and then [b] frames the same messages as feeding
    [a ++ b] at once. *)
Lemma process_complete_messages_append (a b : string) :
  process_complete_messages (a ++ b)%string =
  let r := process_complete_messages a in
  let r' := process_complete_messages (snd r ++ b)%string in
  ((fst r ++ fst r')%list, snd r').
Proof.
  funelim (process_complete_messages a); simpl.
  - now destruct (process_complete_messages (buffer ++ b)%string).
  - pose proof (indexOf_range buffer newline Hne) as Hr.
    rewrite (process_complete_messages_unfold (buffer ++ b)%string).
    rewrite (indexOf_append buffer b newline Hne).
    destruct (Z.eq_dec (indexOf buffer newline) (-1)); [contradiction|].
    cbv zeta.
    assert (Hs : slice_from (buffer ++ b)%string (indexOf buffer newline + 1)
                 = (slice_from buffer (indexOf buffer newline + 1) ++ b)%string).
    { rewrite !slice_from_drop by (rewrite ?length_append; lia).
      apply drop_chars_append. lia. }
    assert (Hp : slice (buffer ++ b)%string 0 (indexOf buffer newline)
                 = slice buffer 0 (indexOf buffer newline)).
    { rewrite !slice_prefix_take by (rewrite ?length_append; lia).
      apply take_chars_append. lia. }
    rewrite Hs, Hp, H. reflexivity.
Qed.

Lemma on_data_split_reads (buffer d1 d2 : string) :
  on_data buffer (d1 ++ d2)%string =
  let r1 := on_data buffer d1 in
  let r2 := on_data (snd r1) d2 in
  ((fst r1 ++ fst r2)%list, snd r2).
Proof.
  unfold on_data.
  replace (buffer ++ (d1 ++ d2))%string with ((buffer ++ d1) ++ d2)%string.
  - apply process_complete_messages_append.
  - clear. induction buffer as [|x s IH]; [reflexivity|].
    change (String x ((s ++ d1) ++ d2) = String x (s ++ d1 ++ d2))%string.
    now f_equal.
Qed.

Lemma indexOf_line (m x : string) :
  indexOf (m ++ String newline x)%string newline <> -1.
Proof.
  induction m as [|a m IH].
  - change (indexOf (String newline x) newline <> -1). simpl.
    now destruct (Ascii.eqb_spec newline newline).
  - change (indexOf (String a (m ++ String newline x)%string) newline <> -1).
    simpl. destruct (Ascii.eqb a newline); [lia|].
    destruct (Z.eqb_spec (indexOf (m ++ String newline x)%string newline) (-1));
      [contradiction|].
    pose proof (indexOf_lower (m ++ String newline x)%string newline). lia.
Qed.

Lemma line_prefix_unique (m m' x x' : string) :
  indexOf m newline = -1 -> indexOf m' newline = -1 ->
  (m ++ String newline x)%string = (m' ++ String newline x')%string ->
  m = m' /\ x = x'.
Proof.
  revert m'; induction m as [|a m IH]; intros [|a' m']; simpl.
  - intros _ _ H. change (String newline x = String newline x') in H.
    split; congruence.
  - intros _ H1 H. change (String newline x = String a' (m' ++ String newline x')%string) in H.
    injection H as <- _. now destruct (Ascii.eqb_spec newline newline).
  - intros H1 _ H. change (String a (m ++ String newline x)%string = String newline x') in H.
    injection H as -> _. now destruct (Ascii.eqb_spec newline newline).
  - intros H1 H2 H.
    change (String a (m ++ String newline x)%string
            = String a' (m' ++ String newline x')%string) in H.
    injection H as <- H.
    destruct (Ascii.eqb a newline); [discriminate|].
    destruct (Z.eqb_spec (indexOf m newline) (-1)) as [Hm|];
      [|pose proof (indexOf_lower m newline); lia].
    destruct (Z.eqb_spec (indexOf m' newline) (-1)) as [Hm'|];
      [|pose proof (indexOf_lower m' newline); lia].
    destruct (IH m' Hm Hm' H) as [-> ->]. auto.
Qed.

(** A buffer has one framing only: the messages and the remainder are
    determined by the text. *)
Lemma join_lines_unique (ms ms' : list string) (r r' : string) :
  Forall (fun m => indexOf m newline = -1) ms ->
  Forall (fun m => indexOf m newline = -1) ms' ->
  indexOf r newline = -1 -> indexOf r' newline = -1 ->
  join_lines ms r = join_lines ms' r' -> ms = ms' /\ r = r'.
Proof.
  intros Hms; revert ms'; induction Hms as [|m ms Hm Hms IH];
    intros ms' Hms' Hr Hr' H; destruct Hms' as [|m' ms' Hm' Hms']; simpl in H.
  - auto.
  - exfalso. rewrite H in Hr. now apply indexOf_line in Hr.
  - exfalso. rewrite <- H in Hr'. now apply indexOf_line in Hr'.
  - destruct (line_prefix_unique _ _ _ _ Hm Hm' H) as [-> H'].
    destruct (IH ms' Hms' Hr Hr' H') as [-> ->]. auto.
Qed.

(** C8: the data handler appends the chunk to the buffer and hands to
    [handleMessage], in order, every newline-terminated line of the
    result; what stays in the buffer is the text after the last newline.
    Re-joining the messages, each with its newline, and the remainder
    gives back the buffer and the chunk; no message and no remainder
    contains a newline; the messages are dispatched in that order; and
    bytes arriving in a later read continue the held remainder, so that
    reading [data] and then [later] frames what reading both at once
    frames. *)
Theorem on_data_frames_every_complete_line (buffer data : string) :
  let messages := fst (on_data buffer data) in
  let rest := snd (on_data buffer data) in
  (buffer ++ data)%string = join_lines messages rest
  /\ Forall (fun m => indexOf m newline = -1) messages
  /\ indexOf rest newline = -1
  /\ (forall JSON_parse socket,
        socket_on_data JSON_parse buffer data socket
        = (dispatch_all JSON_parse messages socket ;;; ret rest))
  /\ (forall later : string,
        on_data buffer (data ++ later)%string
        = ((messages ++ fst (on_data rest later))%list, snd (on_data rest later))).
Proof.
  cbv zeta.
  destruct (process_complete_messages_spec (buffer ++ data)%string) as (H1 & H2 & H3).
  repeat split.
  - exact H1.
  - exact H2.
  - exact H3.
  - intros JSON_parse socket. unfold socket_on_data.
    now destruct (on_data buffer data).
  - intros later. apply on_data_split_reads.
Qed.

End FramingFacts.

(** ** Running the primitives *)

Module MonadFacts.
Import JS Interpreter.

Lemma truthy_string_nonempty (s : string) :
  s <> "" -> truthy_string (Some s) = Some s.
Proof. destruct s; simpl; congruence. Qed.

Lemma truthy_num_false (x : Q) : truthy_num x = false <-> (x == 0)%Q.
Proof.
  unfold truthy_num. rewrite negb_false_iff. apply Qeq_bool_iff.
Qed.

Lemma or_num_zero (x d : Q) : (x == 0)%Q -> or_num (Some x) d = d.
Proof.
  intros H. apply truthy_num_false in H. unfold or_num. now rewrite H.
Qed.

Lemma or_num_positive (n : nat) (d : Q) :
  (0 < n)%nat -> or_num (Some (num (Z.of_nat n))) d = num (Z.of_nat n).
Proof.
  intros H. unfold or_num.
  destruct (truthy_num (num (Z.of_nat n))) eqn:E; [reflexivity|].
  apply truthy_num_false in E. unfold num, Qeq in E. simpl in E. lia.
Qed.

Lemma or_str_nonempty (x : option string) (d : string) :
  d <> "" -> or_str x d <> "".
Proof. destruct x as [[|a s]|]; simpl; congruence. Qed.

(** A call received by a connected bridge that resolves. *)
Lemma setLightState_resolved (w : World) (b : Bridge) (id : string)
    (st : gmap string JsVal) (a : any) :
  bridge (state w) = Some b ->
  on_setLightState b (bridge_calls (trace w)) id st = Resolved a ->
  bridge_lights_setLightState id st w
  = (Return a, record_event (EBridge (lights_setLightState id st)) w).
Proof.
  intros Hb Hr. unfold bridge_lights_setLightState, bind, state_bridge, await_bridge.
  rewrite Hb. simpl. now rewrite Hr.
Qed.

Lemma setLightState_rejected (w : World) (b : Bridge) (id : string)
    (st : gmap string JsVal) (e : Error) :
  bridge (state w) = Some b ->
  on_setLightState b (bridge_calls (trace w)) id st = Rejected e ->
  bridge_lights_setLightState id st w
  = (Throw e, record_event (EBridge (lights_setLightState id st)) w).
Proof.
  intros Hb Hr. unfold bridge_lights_setLightState, bind, state_bridge, await_bridge.
  rewrite Hb. simpl. now rewrite Hr.
Qed.

Lemma bridge_calls_app (t1 t2 : list Event) :
  bridge_calls (t1 ++ t2)%list = (bridge_calls t1 ++ bridge_calls t2)%list.
Proof. unfold bridge_calls. apply omap_app. Qed.

Lemma socket_writes_app (t1 t2 : list Event) :
  socket_writes (t1 ++ t2)%list = (socket_writes t1 ++ socket_writes t2)%list.
Proof. unfold socket_writes. apply omap_app. Qed.

Lemma socket_closes_app (t1 t2 : list Event) :
  socket_closes (t1 ++ t2)%list = (socket_closes t1 ++ socket_closes t2)%list.
Proof. unfold socket_closes. apply omap_app. Qed.

End MonadFacts.

(** ** What a computation may touch *)

Module FrameFacts.
Import JS Interpreter Server Vocabulary.

Section Frame.

Variable allowed : Event -> Prop.

Lemma frames_pure {A : Type} (f : World -> Outcome A) :
  frames allowed (fun w => (f w, w)).
Proof.
  intros w. split; [reflexivity|]. exists []. simpl. rewrite app_nil_r. auto.
Qed.

Lemma frames_ret {A : Type} (a : A) : frames allowed (ret a).
Proof. apply (frames_pure (fun _ => Return a)). Qed.

Lemma frames_throw {A : Type} (e : Error) : frames allowed (@throw A e).
Proof. apply (frames_pure (fun _ => Throw e)). Qed.

Lemma frames_bind {A B : Type} (m : M A) (k : A -> M B) :
  frames allowed m -> (forall a, frames allowed (k a)) -> frames allowed (bind m k).
Proof.
  intros Hm Hk w. unfold bind.
  destruct (Hm w) as (Hs & evs & Ht & Hall).
  destruct (m w) as [[a|e] w1]; simpl in *.
  - destruct (Hk a w1) as (Hs' & evs' & Ht' & Hall').
    split; [congruence|]. exists (evs ++ evs')%list.
    rewrite Ht', Ht, <- app_assoc. split; [reflexivity|].
    apply Forall_app; auto.
  - split; [exact Hs|]. exists evs. auto.
Qed.

Lemma frames_try_catch {A : Type} (body : M A) (handler : Error -> M A) :
  frames allowed body -> (forall e, frames allowed (handler e)) -> frames allowed (try_catch body handler).
Proof.
  intros Hm Hk w. unfold try_catch.
  destruct (Hm w) as (Hs & evs & Ht & Hall).
  destruct (body w) as [[a|e] w1]; simpl in *.
  - split; [exact Hs|]. exists evs. auto.
  - destruct (Hk e w1) as (Hs' & evs' & Ht' & Hall').
    split; [congruence|]. exists (evs ++ evs')%list.
    rewrite Ht', Ht, <- app_assoc. split; [reflexivity|].
    apply Forall_app; auto.
Qed.

Lemma frames_emit (e : Event) : allowed e -> frames allowed (emit e).
Proof.
  intros He w. split; [reflexivity|]. exists [e]. split; [reflexivity|].
  constructor; [exact He|constructor].
Qed.

Lemma frames_sleep (ms : Z) : allowed (ESleep ms) -> frames allowed (sleep ms).
Proof.
  intros He w. split; [reflexivity|]. exists [ESleep ms]. split; [reflexivity|].
  constructor; [exact He|constructor].
Qed.

Lemma frames_silent {A : Type} (f : World -> A) (g : World -> World) :
  (forall w, state (g w) = state w) -> (forall w, trace (g w) = trace w) ->
  frames allowed (fun w => (Return (f w), g w)).
Proof.
  intros Hs Ht w. split; [apply Hs|]. exists []. simpl.
  rewrite Ht, app_nil_r. auto.
Qed.

Lemma frames_state_bridge (prop : string) : frames allowed (state_bridge prop).
Proof.
  intros w. unfold state_bridge. destruct (bridge (state w)); simpl;
    (split; [reflexivity|]; exists []; rewrite app_nil_r; auto).
Qed.

Lemma frames_await_bridge {A : Type} (c : BridgeCall)
    (settle : list BridgeCall -> Settled A) :
  allowed (EBridge c) -> frames allowed (await_bridge c settle).
Proof.
  intros He w. unfold await_bridge. simpl.
  destruct (settle (bridge_calls (trace w))); simpl;
    (split; [reflexivity|]; exists [EBridge c]; split; [reflexivity|];
     constructor; [exact He|constructor]).
Qed.

End Frame.

Lemma frames_weaken {A : Type} (P Q : Event -> Prop) (m : M A) :
  (forall e, P e -> Q e) -> frames P m -> frames Q m.
Proof.
  intros HPQ Hm w. destruct (Hm w) as (Hs & evs & Ht & Hall).
  split; [exact Hs|]. exists evs. split; [exact Ht|].
  eapply Forall_impl; eauto.
Qed.

(** Decomposes a goal [frames allowed m] along the structure of [m]. *)
Ltac frame_step :=
  first
    [ apply frames_ret
    | apply frames_throw
    | apply frames_bind; [|intros]
    | apply frames_try_catch; [|intros]
    | apply frames_state_bridge
    | apply frames_await_bridge; exact I
    | apply frames_sleep; exact I
    | apply frames_emit; exact I
    | apply (frames_silent _ (fun w => Date_now w) (fun w => w)); reflexivity
    | apply (frames_silent _ (fun w => state w) (fun w => w)); reflexivity
    | match goal with
      | |- frames _ (match ?x with _ => _ end) => destruct x
      | |- frames _ (if ?x then _ else _) => destruct x
      end ].

Lemma frames_setLightState (allowed : Event -> Prop) (id : string)
    (st : gmap string JsVal) :
  allowed (EBridge (lights_setLightState id st)) ->
  frames allowed (bridge_lights_setLightState id st).
Proof.
  intros H. unfold bridge_lights_setLightState.
  apply frames_bind; [apply frames_state_bridge|intros].
  apply frames_await_bridge. apply H.
Qed.

Lemma frames_flash_loop (lightId : string) (color : rgb) (times i : Q) :
  frames internal (flash_loop lightId color times i).
Proof.
  funelim (flash_loop lightId color times i).
  - repeat first [ apply frames_setLightState; exact I | frame_step ].
    intros w. exact (H a a0 a1 a2 w w).
  - apply frames_ret.
Qed.

Lemma frames_setInterval (allowed : Event -> Prop) (j : Interval) :
  frames allowed (setInterval j).
Proof.
  apply (frames_silent allowed (fun w => length (intervals w)) (register_interval j));
    reflexivity.
Qed.

Lemma frames_set_interval (allowed : Event -> Prop) (id : nat) (j : Interval) :
  frames allowed (set_interval id j).
Proof.
  apply (frames_silent allowed (fun _ => tt) (update_interval id j)); reflexivity.
Qed.

Lemma frames_get_interval (allowed : Event -> Prop) (id : nat) :
  frames allowed (get_interval id).
Proof.
  apply (frames_silent allowed (fun w => intervals w !! id) (fun w => w)); reflexivity.
Qed.

(** [handleCommand] never writes [state] and never touches a socket. *)
Lemma frames_handleCommand (command : MCPCommand.t) :
  frames internal (handleCommand command).
Proof.
  unfold handleCommand, bridge_groups_getAll, bridge_scenes_getAll,
    bridge_scenes_activateScene, get_state, get_Date_now.
  destruct (switch (MCPCommand.type command));
    repeat first
      [ apply frames_setLightState; exact I
      | apply frames_flash_loop
      | apply frames_setInterval
      | frame_step ].
Qed.

Lemma internal_serving (e : Event) : internal e -> serving e.
Proof. destruct e as [[]| | |]; simpl; tauto. Qed.

Lemma internal_no_socket (events : list Event) :
  Forall internal events -> socket_writes events = [] /\ socket_closes events = [].
Proof.
  induction 1 as [|e events He _ [IH1 IH2]]; [auto|].
  destruct e as [c| | |]; simpl in *; try contradiction; auto.
Qed.

Lemma serving_no_close (events : list Event) :
  Forall serving events ->
  socket_closes events = [] /\ ~ In lights_getAll (bridge_calls events).
Proof.
  induction 1 as [|e events He _ [IH1 IH2]]; [auto|].
  destruct e as [c| | |]; simpl in *; try contradiction; auto.
  split; [exact IH1|]. intros [->|H]; [exact He|exact (IH2 H)].
Qed.

(** The timer callback only calls the bridge. *)
Lemma frames_interval_fires (id : nat) : frames internal (interval_fires id).
Proof.
  unfold interval_fires, disco_callback, clearInterval.
  repeat first
    [ apply frames_setLightState; exact I
    | apply frames_set_interval
    | apply frames_get_interval
    | apply (frames_silent _ (fun w => Date_now w) (fun w => w)); reflexivity
    | frame_step ].
Qed.

Lemma frames_elapse (allowed : Event -> Prop) (ms : Z) : frames allowed (elapse ms).
Proof.
  apply (frames_silent allowed (fun _ => tt) (advance_clock ms)); reflexivity.
Qed.

Section Session.

Variable JSON_parse : string -> Outcome MCPCommand.t.

Lemma frames_handleMessage (message : string) (socket : nat) :
  frames serving (handleMessage JSON_parse message socket).
Proof.
  unfold handleMessage, socket_write.
  apply frames_try_catch; [|intros; apply frames_emit; exact I].
  apply frames_bind; [apply frames_pure|intros].
  apply frames_bind; [|intros; apply frames_emit; exact I].
  apply (frames_weaken internal); [apply internal_serving|apply frames_handleCommand].
Qed.

Lemma frames_dispatch (message : string) (socket : nat) :
  frames serving (dispatch JSON_parse message socket).
Proof.
  unfold dispatch, socket_write.
  apply frames_try_catch; [apply frames_handleMessage|].
  intros. apply frames_emit. exact I.
Qed.

Lemma frames_run_step (s : Step) : frames serving (run_step JSON_parse s).
Proof.
  destruct s; simpl.
  - apply frames_dispatch.
  - apply (frames_weaken internal); [apply internal_serving|apply frames_interval_fires].
  - apply frames_elapse.
Qed.

Lemma frames_run (steps : list Step) : frames serving (run JSON_parse steps).
Proof.
  induction steps as [|s steps IH]; simpl.
  - apply frames_ret.
  - apply frames_bind; [apply frames_run_step|intros; exact IH].
Qed.

(** No fault leaves [handleMessage]. *)
Lemma handleMessage_returns (message : string) (socket : nat) (w : World) :
  fst (handleMessage JSON_parse message socket w) = Return tt.
Proof.
  unfold handleMessage, try_catch, bind, socket_write, emit.
  destruct (JSON_parse message); [|reflexivity].
  destruct (handleCommand a w) as [[r|e] w1]; reflexivity.
Qed.

Lemma dispatch_returns (message : string) (socket : nat) (w : World) :
  fst (dispatch JSON_parse message socket w) = Return tt.
Proof.
  unfold dispatch, try_catch.
  pose proof (handleMessage_returns message socket w) as H.
  destruct (handleMessage JSON_parse message socket w) as [[[]|e] w1];
    simpl in *; [reflexivity|discriminate].
Qed.

Lemma interval_fires_returns (id : nat) (w : World) :
  fst (interval_fires id w) = Return tt.
Proof.
  unfold interval_fires, bind, get_interval.
  destruct (intervals w !! id) as [j|]; [|reflexivity].
  destruct (i_cleared j); [reflexivity|].
  unfold disco_callback, bind, get_interval.
  destruct (intervals w !! id) as [j'|]; [|reflexivity].
  unfold try_catch.
  destruct (bridge_lights_setLightState _ _ w) as [[a|e] w1]; [|reflexivity].
  unfold set_interval, get_Date_now.
  destruct (Qle_bool _ _); [|reflexivity].
  unfold clearInterval, bind, get_interval. simpl.
  destruct (_ !! id); reflexivity.
Qed.

Lemma run_returns (steps : list Step) (w : World) :
  fst (run JSON_parse steps w) = Return tt.
Proof.
  revert w; induction steps as [|s steps IH]; intros w; [reflexivity|].
  simpl. unfold bind.
  assert (H : fst (run_step JSON_parse s w) = Return tt).
  { destruct s; simpl;
      [apply dispatch_returns|apply interval_fires_returns|reflexivity]. }
  destruct (run_step JSON_parse s w) as [[[]|e] w1]; simpl in H;
    [apply IH|discriminate].
Qed.

End Session.

End FrameFacts.

(** ** [set_brightness] *)

Module BrightnessFacts.
Import JS Interpreter MonadFacts.
Import MCPCommand.

(** On whole percentages the scaling is integer arithmetic. *)
Lemma Math_round_percent (b : Z) :
  Math_round (num b / num 100 * num 254) = (254 * b + 50) / 100.
Proof.
  unfold Math_round, num, Qfloor, Qdiv, Qmult, Qplus, Qinv, inject_Z. simpl.
  rewrite <- (Z.div_mul_cancel_r (254 * b + 50) 100 2) by lia.
  f_equal; lia.
Qed.

Lemma bri_in_range (b : Z) :
  0 <= b <= 100 -> 0 <= Math_round (num b / num 100 * num 254) <= 254.
Proof.
  intros Hb. rewrite Math_round_percent. split.
  - apply Z.div_pos; lia.
  - enough ((254 * b + 50) / 100 < 255) by lia.
    apply Z.div_lt_upper_bound; lia.
Qed.

(** Evaluated on binary64 numbers, as the engine does, the scaling of every
    whole percentage gives the same integer as on exact rationals. *)
Lemma bri_double_agrees (b : Z) :
  0 <= b <= 100 -> Double.bri b = Some (Math_round (num b / num 100 * num 254)).
Proof.
  intros Hb.
  assert (Hall : forallb
            (fun n => match Double.bri (Z.of_nat n) with
                      | Some r => r =? Math_round (num (Z.of_nat n) / num 100 * num 254)
                      | None => false
                      end) (seq 0 101) = true) by (vm_compute; reflexivity).
  rewrite forallb_forall in Hall.
  specialize (Hall (Z.to_nat b)). rewrite Z2Nat.id in Hall by lia.
  assert (Hin : In (Z.to_nat b) (seq 0 101)) by (apply in_seq; lia).
  specialize (Hall Hin).
  destruct (Double.bri b) as [r|]; [|discriminate].
  apply Z.eqb_eq in Hall. now subst r.
Qed.

(** C4: a [set_brightness] command with a lightId and a whole brightness
    [b] between 0 and 100 makes the bridge receive one [setLightState]
    call, [{ on: true, bri: round(b/100*254) }], with [bri] between 0 and
    254, and is answered with the success response once the bridge has
    resolved that call; computed on binary64 numbers, [bri] is the same
    integer. *)
Theorem set_brightness_scales_to_254 (command : MCPCommand.t) (lightId : string)
    (b : Z) (w : World) (hue : Bridge) (a : any) :
  let bri := Math_round (num b / num 100 * num 254) in
  let call :=
    lights_setLightState lightId
      (obj [("on", VBool true); ("bri", VNum (num bri))]) in
  type command = "set_brightness" ->
  MCPCommand.lightId command = Some lightId -> lightId <> "" ->
  brightness command = Some (num b) -> 0 <= b <= 100 ->
  bridge (state w) = Some hue ->
  on_setLightState hue (bridge_calls (trace w)) lightId
    (obj [("on", VBool true); ("bri", VNum (num bri))]) = Resolved a ->
  handleCommand command w = (Return MCPResponse.mk_success, record_event (EBridge call) w)
  /\ bridge_calls (trace (record_event (EBridge call) w))
     = (bridge_calls (trace w) ++ [call])%list
  /\ 0 <= bri <= 254
  /\ Double.bri b = Some bri.
Proof.
  intros bri call Hty Hid Hne Hb Hrange Hhue Hres. subst bri call.
  split; [|split; [|split]].
  - unfold handleCommand. rewrite Hty. change (switch "set_brightness") with case_set_brightness.
    cbv iota. rewrite Hid, Hb, (truthy_string_nonempty _ Hne).
    unfold try_catch, bind. cbv zeta.
    rewrite (setLightState_resolved w hue _ _ a Hhue Hres). reflexivity.
  - simpl. rewrite bridge_calls_app. reflexivity.
  - now apply bri_in_range.
  - now apply bri_double_agrees.
Qed.

(** [{"type":"set_brightness","lightId":"1","brightness":50}] reaches the
    bridge as [{ on: true, bri: 127 }]. *)
Lemma set_brightness_scales_to_254_witness :
  let w := Fixtures.started (Fixtures.bridge_accepting [Fixtures.kitchen])
             [Fixtures.kitchen] in
  let call :=
    lights_setLightState "1" (obj [("on", VBool true); ("bri", VNum (num 127))]) in
  handleCommand (Fixtures.brightness_command (num 50)) w
  = (Return MCPResponse.mk_success, record_event (EBridge call) w)
  /\ bridge_calls (trace (record_event (EBridge call) w))
     = (bridge_calls (trace w) ++ [call])%list
  /\ 0 <= 127 <= 254
  /\ Double.bri 50 = Some 127.
Proof.
  apply (set_brightness_scales_to_254 (Fixtures.brightness_command (num 50))
           "1" 50
           (Fixtures.started (Fixtures.bridge_accepting [Fixtures.kitchen])
              [Fixtures.kitchen])
           (Fixtures.bridge_accepting [Fixtures.kitchen]) (any_bool true));
    try reflexivity; try lia; discriminate.
Defined.

End BrightnessFacts.

(** ** [flash] *)

Module FlashFacts.
Import JS Interpreter Server Vocabulary MonadFacts.
Import MCPCommand.

Lemma flash_loop_unfold (lightId : string) (color : rgb) (times i : Q) :
flash_loop lightId color times i =
if Qlt_le_dec i times then
  (bridge_lights_setLightState lightId (on_at_color color) ;;;
   sleep 500 ;;;
   bridge_lights_setLightState lightId off ;;;
   sleep 500 ;;;
   flash_loop lightId color times (i + 1)%Q)
else ret tt.
Proof.
funelim (flash_loop lightId color times i); rewrite Heq; reflexivity.
Qed.

Lemma bridge_calls_loop_events (lightId : string) (color : rgb) (m : nat) :
bridge_calls (loop_events lightId color m)
= concat (replicate m [flash_on lightId color; flash_off lightId]).
Proof.
induction m as [|m IH]; [reflexivity|].
unfold loop_events in *. simpl. now rewrite <- IH.
Qed.

Lemma socket_writes_loop_events (lightId : string) (color : rgb) (m : nat) :
socket_writes (loop_events lightId color m) = [].
Proof.
induction m as [|m IH]; [reflexivity|].
unfold loop_events in *. simpl. exact IH.
Qed.

(** With [m] whole steps left before [times], the loop runs [m] iterations
  and returns. *)
Lemma flash_loop_runs (hue : Bridge) (lightId : string) (color : rgb) (times : Q) :
accepts_light_states hue ->
forall (m : nat) (i : Q) (w : World),
  (i + num (Z.of_nat m) == times)%Q ->
  bridge (state w) = Some hue ->
  exists w',
    flash_loop lightId color times i w = (Return tt, w')
    /\ state w' = state w
    /\ intervals w' = intervals w
    /\ trace w' = (trace w ++ loop_events lightId color m)%list.
Proof.
intros Hacc m. induction m as [|m IH]; intros i w Hi Hb.
- exists w. rewrite flash_loop_unfold.
  destruct (Qlt_le_dec i times) as [Hlt|_].
  + exfalso. change (num (Z.of_nat 0)) with 0%Q in Hi. lra.
  + unfold loop_events. simpl. rewrite app_nil_r. auto.
- rewrite flash_loop_unfold.
  assert (Hm : (0 <= inject_Z (Z.of_nat m))%Q)
    by (change 0%Q with (inject_Z 0); rewrite <- Zle_Qle; lia).
  unfold num in Hi. rewrite Nat2Z.inj_succ in Hi. unfold Z.succ in Hi.
  rewrite inject_Z_plus in Hi. change (inject_Z 1) with 1%Q in Hi.
  destruct (Qlt_le_dec i times) as [_|Hle].
  2:{ exfalso. generalize dependent (inject_Z (Z.of_nat m)). intros. lra. }
  destruct (Hacc (bridge_calls (trace w)) lightId (on_at_color color)) as [a1 Ha1].
  unfold bind at 1.
  rewrite (setLightState_resolved w hue _ _ a1 Hb Ha1).
  unfold bind at 1. unfold sleep at 1.
  set (w2 := record_event (ESleep 500) (advance_clock 500
               (record_event (EBridge (lights_setLightState lightId (on_at_color color))) w))).
  destruct (Hacc (bridge_calls (trace w2)) lightId off) as [a2 Ha2].
  unfold bind at 1.
  rewrite (setLightState_resolved w2 hue _ _ a2 Hb Ha2).
  unfold bind at 1. unfold sleep at 1.
  set (w4 := record_event (ESleep 500) (advance_clock 500
               (record_event (EBridge (lights_setLightState lightId off)) w2))).
  destruct (IH (i + 1)%Q w4) as (w' & Hrun & Hs & Hi' & Ht).
  + unfold num. generalize dependent (inject_Z (Z.of_nat m)). intros. lra.
  + exact Hb.
  + exists w'. rewrite Hrun, Hs, Hi', Ht. repeat split.
    unfold loop_events. simpl. rewrite <- !app_assoc. reflexivity.
Qed.

(** The [flash] case once [times] has been defaulted to the whole number
    [n]. *)
Lemma flash_command_runs (hue : Bridge) (command : MCPCommand.t)
    (lightId : string) (color : rgb) (n : nat) (w : World) :
  type command = "flash" ->
  MCPCommand.lightId command = Some lightId -> lightId <> "" ->
  MCPCommand.color command = Some color ->
  or_num (times command) (num 3) = num (Z.of_nat n) ->
  bridge (state w) = Some hue -> accepts_light_states hue ->
  exists w' events,
    handleCommand command w = (Return MCPResponse.mk_success, w')
    /\ trace w' = (trace w ++ events)%list
    /\ bridge_calls events = flash_calls lightId color n
    /\ socket_writes events = []
    /\ state w' = state w.
Proof.
  intros Hty Hid Hne Hcolor Htimes Hb Hacc.
  unfold handleCommand. rewrite Hty. change (switch "flash") with case_flash.
  cbv iota. rewrite Hid, Hcolor, (truthy_string_nonempty _ Hne).
  unfold try_catch. cbv zeta. rewrite Htimes.
  destruct (flash_loop_runs hue lightId color (num (Z.of_nat n)) Hacc n (num 0) w)
    as (w1 & Hrun & Hs & _ & Ht); [apply Qplus_0_l|exact Hb|].
  unfold bind at 1. rewrite Hrun.
  rewrite <- Hs in Hb.
  destruct (Hacc (bridge_calls (trace w1)) lightId (on_at_color color)) as [a Ha].
  unfold bind. rewrite (setLightState_resolved w1 hue _ _ a Hb Ha).
  eexists. exists (loop_events lightId color n ++ [EBridge (flash_on lightId color)])%list.
  split; [reflexivity|]. simpl. rewrite Ht, <- app_assoc.
  split; [reflexivity|]. split; [|split].
  - rewrite bridge_calls_app, bridge_calls_loop_events. reflexivity.
  - rewrite socket_writes_app, socket_writes_loop_events. reflexivity.
  - exact Hs.
Qed.

Lemma length_flash_calls (lightId : string) (color : rgb) (n : nat) :
  length (flash_calls lightId color n) = (2 * n + 1)%nat.
Proof.
  unfold flash_calls. rewrite length_app. simpl.
  induction n as [|n IH]; simpl in *; lia.
Qed.

(** C5: a [flash] command with a lightId, a colour and [times] a positive
    whole number [n] (or no [times], and [n = 3]) makes the bridge receive
    exactly [2n + 1] [setLightState] calls, alternately
    [{ on: true, bri: 254, rgb: color }] and [{ on: false }], beginning and
    ending with the former; the handler writes nothing on the socket while
    they are made, and the success response is the last event.  The bridge
    is assumed to resolve every call. *)
Theorem flash_makes_2n_plus_1_calls (JSON_parse : string -> Outcome MCPCommand.t)
    (message : string) (socket : nat) (command : MCPCommand.t)
    (lightId : string) (color : rgb) (n : nat) (w : World) (hue : Bridge) :
  JSON_parse message = Return command ->
  type command = "flash" ->
  MCPCommand.lightId command = Some lightId -> lightId <> "" ->
  MCPCommand.color command = Some color ->
  (times command = Some (num (Z.of_nat n)) /\ (0 < n)%nat)
  \/ (times command = None /\ n = 3%nat) ->
  bridge (state w) = Some hue -> accepts_light_states hue ->
  exists w' events,
    handleMessage JSON_parse message socket w = (Return tt, w')
    /\ trace w'
       = (trace w ++ events ++ [EWrite socket (WResponse MCPResponse.mk_success)])%list
    /\ bridge_calls events = flash_calls lightId color n
    /\ length (bridge_calls events) = (2 * n + 1)%nat
    /\ socket_writes events = [].
Proof.
  intros Hparse Hty Hid Hne Hcolor Htimes Hb Hacc.
  assert (Hor : or_num (times command) (num 3) = num (Z.of_nat n)).
  { destruct Htimes as [[-> Hn]|[-> ->]]; [now apply or_num_positive|reflexivity]. }
  destruct (flash_command_runs hue command lightId color n w
              Hty Hid Hne Hcolor Hor Hb Hacc) as (w1 & events & Hrun & Ht & Hc & Hw & _).
  exists (record_event (EWrite socket (WResponse MCPResponse.mk_success)) w1), events.
  split; [|split; [|split; [|split]]].
  - unfold handleMessage, try_catch, bind. rewrite Hparse, Hrun. reflexivity.
  - simpl. rewrite Ht, <- app_assoc. reflexivity.
  - exact Hc.
  - rewrite Hc. apply length_flash_calls.
  - exact Hw.
Qed.

(** [{"type":"flash","lightId":"2","color":[0,255,0],"times":2}]: five
    calls, in the order on, off, on, off, on, then the response. *)
Lemma flash_makes_2n_plus_1_calls_witness :
  let w := Fixtures.started (Fixtures.bridge_accepting [Fixtures.kitchen])
             [Fixtures.kitchen] in
  let on_ := lights_setLightState "2"
               (obj [("on", VBool true); ("bri", VNum (num 254));
                     ("rgb", VRgb Fixtures.green)]) in
  let off_ := lights_setLightState "2" (obj [("on", VBool false)]) in
  exists w' events,
    handleMessage Fixtures.decode Fixtures.line_flash_twice 0%nat w = (Return tt, w')
    /\ trace w'
       = (trace w ++ events ++ [EWrite 0%nat (WResponse MCPResponse.mk_success)])%list
    /\ bridge_calls events = [on_; off_; on_; off_; on_]
    /\ length (bridge_calls events) = 5%nat
    /\ socket_writes events = [].
Proof.
  apply (flash_makes_2n_plus_1_calls Fixtures.decode Fixtures.line_flash_twice 0%nat
           (Fixtures.flash_command (Some (num 2))) "2" Fixtures.green 2
           (Fixtures.started (Fixtures.bridge_accepting [Fixtures.kitchen])
              [Fixtures.kitchen])
           (Fixtures.bridge_accepting [Fixtures.kitchen])).
  - reflexivity.
  - reflexivity.
  - reflexivity.
  - discriminate.
  - reflexivity.
  - left. split; [reflexivity|lia].
  - reflexivity.
  - intros received id st. exists (any_bool true). reflexivity.
Defined.

End FlashFacts.

(** ** [disco] and its interval *)

Module DiscoFacts.
Import JS Interpreter Server Vocabulary Terms MonadFacts.
Import MCPCommand.

(** The [disco] case registers one interval and answers at once. *)
Lemma disco_starts (command : MCPCommand.t) (lightId : string) (w : World) :
  type command = "disco" ->
  MCPCommand.lightId command = Some lightId -> lightId <> "" ->
  handleCommand command w
  = (Return MCPResponse.mk_success,
     register_interval
       {| i_lightId := lightId;
          i_duration := or_num (duration command) (num 30);
          i_speed := or_num (speed command) (num 500);
          i_colorIndex := 0%nat;
          i_startTime := Date_now w;
          i_cleared := false |} w).
Proof.
  intros Hty Hid Hne. unfold handleCommand. rewrite Hty.
  change (switch "disco") with case_disco. cbv iota.
  rewrite Hid, (truthy_string_nonempty _ Hne). reflexivity.
Qed.

(** A cleared interval never runs its callback again. *)
Lemma cleared_interval_is_silent (id : nat) (j : Interval) (delays : list Z) :
  i_cleared j = true ->
  forall w : World,
    intervals w !! id = Some j ->
    exists w',
      run_interval id delays w = (Return tt, w')
      /\ trace w' = trace w
      /\ intervals w' = intervals w
      /\ state w' = state w.
Proof.
  intros Hc. induction delays as [|ms delays IH]; intros w Hj.
  - exists w. auto.
  - destruct (IH (advance_clock ms w) Hj) as (w' & Hrun & Ht & Hi & Hs).
    exists w'. simpl. unfold bind, elapse, interval_fires, bind, get_interval.
    simpl. rewrite Hj, Hc. unfold ret. rewrite Hrun. auto.
Qed.

Lemma tick_resolved (id : nat) (j : Interval) (w : World) (hue : Bridge) (a : any) :
  intervals w !! id = Some j -> i_cleared j = false ->
  bridge (state w) = Some hue ->
  on_setLightState hue (bridge_calls (trace w)) (i_lightId j)
    (tick_state (i_colorIndex j)) = Resolved a ->
  interval_fires id w
  = (Return tt,
     update_interval id (after_tick j (Date_now w))
       (record_event
          (EBridge (lights_setLightState (i_lightId j) (tick_state (i_colorIndex j)))) w)).
Proof.
  intros Hj Hrun Hb Hres.
  pose proof (lookup_lt_Some _ _ _ Hj) as Hlt.
  unfold interval_fires, bind at 1, get_interval. rewrite Hj, Hrun.
  unfold disco_callback, bind at 1, get_interval. rewrite Hj.
  unfold try_catch, bind at 1. fold (tick_state (i_colorIndex j)).
  rewrite (setLightState_resolved w hue _ _ a Hb Hres).
  unfold bind, set_interval, get_Date_now. simpl.
  destruct (Qle_bool (i_duration j * num 1000) (num (Date_now w - i_startTime j))) eqn:E.
  - unfold clearInterval, bind, get_interval, set_interval. simpl.
    rewrite list_lookup_insert_eq by exact Hlt. simpl.
    unfold update_interval, after_tick. simpl. rewrite E, Hrun.
    rewrite list_insert_insert_eq. reflexivity.
  - unfold ret, update_interval, after_tick. rewrite E, Hrun. reflexivity.
Qed.

(** When the bridge rejects the call the tick changes nothing but the
    trace: the cursor stays and the elapsed time is not looked at. *)
Lemma tick_rejected (id : nat) (j : Interval) (w : World) (hue : Bridge) (e : Error) :
  intervals w !! id = Some j -> i_cleared j = false ->
  bridge (state w) = Some hue ->
  on_setLightState hue (bridge_calls (trace w)) (i_lightId j)
    (tick_state (i_colorIndex j)) = Rejected e ->
  interval_fires id w
  = (Return tt,
     record_event
       (EBridge (lights_setLightState (i_lightId j) (tick_state (i_colorIndex j)))) w).
Proof.
  intros Hj Hrun Hb Hres.
  unfold interval_fires, bind at 1, get_interval. rewrite Hj, Hrun.
  unfold disco_callback, bind at 1, get_interval. rewrite Hj.
  unfold try_catch, bind at 1. fold (tick_state (i_colorIndex j)).
  rewrite (setLightState_rejected w hue _ _ e Hb Hres). reflexivity.
Qed.




End DiscoFacts.

(** ** Defaults of the effect parameters *)

Module DefaultingFacts.
Import JS Interpreter Server Vocabulary MonadFacts FlashFacts DiscoFacts.
Import MCPCommand.

(** C10: the defaults are applied by [||], which tests falsiness: a
    [flash] command whose [times] is zero runs three cycles, seven
    [setLightState] calls, as if [times] were absent; a [disco] command
    whose [duration] is zero gets the 30 seconds, and one whose [speed] is
    zero the 500 milliseconds, of the defaults. *)
Theorem zero_is_defaulted_like_absent (hue : Bridge) (command : MCPCommand.t)
    (lightId : string) (w : World) :
  MCPCommand.lightId command = Some lightId -> lightId <> "" ->
  (type command = "flash" ->
   forall (color : rgb) (t : Q),
     MCPCommand.color command = Some color ->
     times command = Some t -> (t == 0)%Q ->
     bridge (state w) = Some hue -> accepts_light_states hue ->
     exists w' events,
       handleCommand command w = (Return MCPResponse.mk_success, w')
       /\ trace w' = (trace w ++ events)%list
       /\ bridge_calls events = flash_calls lightId color 3
       /\ length (bridge_calls events) = 7%nat)
  /\ (type command = "disco" ->
      exists j : Interval,
        handleCommand command w
        = (Return MCPResponse.mk_success, register_interval j w)
        /\ (forall d : Q, duration command = Some d -> (d == 0)%Q ->
            i_duration j = num 30)
        /\ (forall s : Q, speed command = Some s -> (s == 0)%Q ->
            i_speed j = num 500)
        /\ (duration command = None -> i_duration j = num 30)
        /\ (speed command = None -> i_speed j = num 500)).
Proof.
  intros Hid Hne. split.
  - intros Hty color t Hcolor Ht H0 Hb Hacc.
    assert (Hor : or_num (times command) (num 3) = num (Z.of_nat 3))
      by (rewrite Ht; now apply or_num_zero).
    destruct (flash_command_runs hue command lightId color 3 w
                Hty Hid Hne Hcolor Hor Hb Hacc) as (w' & events & Hrun & Htr & Hc & _).
    exists w', events. rewrite Hc. auto.
  - intros Hty. eexists. split; [exact (disco_starts command lightId w Hty Hid Hne)|].
    simpl. repeat split.
    + intros d -> Hd. now apply or_num_zero.
    + intros s -> Hs. now apply or_num_zero.
    + now intros ->.
    + now intros ->.
Qed.

(** [{"type":"flash","lightId":"2","color":[0,255,0],"times":0}] and
    [{"type":"disco","lightId":"3","duration":0,"speed":0}]. *)
Lemma zero_is_defaulted_like_absent_witness :
  let hue := Fixtures.bridge_accepting [Fixtures.kitchen] in
  let w := Fixtures.started hue [Fixtures.kitchen] in
  (exists w' events,
     handleCommand (Fixtures.flash_command (Some (num 0))) w
     = (Return MCPResponse.mk_success, w')
     /\ trace w' = (trace w ++ events)%list
     /\ bridge_calls events = flash_calls "2" Fixtures.green 3
     /\ length (bridge_calls events) = 7%nat)
  /\ (exists j : Interval,
        handleCommand (Fixtures.disco_command (Some (num 0)) (Some (num 0))) w
        = (Return MCPResponse.mk_success, register_interval j w)
        /\ i_duration j = num 30 /\ i_speed j = num 500).
Proof.
  split.
  - apply (zero_is_defaulted_like_absent
             (Fixtures.bridge_accepting [Fixtures.kitchen])
             (Fixtures.flash_command (Some (num 0))) "2"
             (Fixtures.started (Fixtures.bridge_accepting [Fixtures.kitchen])
                [Fixtures.kitchen]))
      with (t := num 0).
    + reflexivity.
    + discriminate.
    + reflexivity.
    + reflexivity.
    + reflexivity.
    + reflexivity.
    + reflexivity.
    + intros received id st. exists (any_bool true). reflexivity.
  - destruct (zero_is_defaulted_like_absent
                (Fixtures.bridge_accepting [Fixtures.kitchen])
                (Fixtures.disco_command (Some (num 0)) (Some (num 0))) "3"
                (Fixtures.started (Fixtures.bridge_accepting [Fixtures.kitchen])
                   [Fixtures.kitchen]))
      as [_ Hdisco].
    + reflexivity.
    + discriminate.
    + destruct (Hdisco eq_refl) as (j & Hrun & Hd & Hs & _).
      exists j. split; [exact Hrun|]. split.
      * apply (Hd (num 0)); reflexivity.
      * apply (Hs (num 0)); reflexivity.
Defined.

End DefaultingFacts.

(** ** Validation errors *)

Module ValidationFacts.
Import JS Interpreter Server Vocabulary MonadFacts.
Import MCPCommand.

Lemma switch_unrecognized (type : string) :
  ~ recognized type -> switch type = case_default.
Proof.
  intros H. unfold switch.
  repeat match goal with
  | |- context [String.eqb type ?s] =>
      destruct (String.eqb_spec type s) as [->|_];
        [exfalso; apply H; unfold recognized; simpl; tauto|]
  end.
  reflexivity.
Qed.

(** Evaluates [switch] on a literal type. *)
Ltac decide_switch :=
  match goal with
  | |- context [switch ?s] =>
      let c := eval vm_compute in (switch s) in
      change (switch s) with c; cbv iota
  end.

(** C6: a command of a recognized type that lacks one of the fields its
    type requires is answered with a response of type "error" carrying a
    non-empty string, and a command of a type outside the enumerated set
    with the error "Unknown command"; in both cases the world is returned
    as it was, so the bridge has received no call. *)
Theorem invalid_command_is_refused_without_bridge_call
    (command : MCPCommand.t) (w : World) :
  (lacks_required_field command ->
   exists (r : MCPResponse.t) (w' : World),
     handleCommand command w = (Return r, w')
     /\ MCPResponse.type r = "error"
     /\ (exists e : string, MCPResponse.error r = Some e /\ e <> "")
     /\ bridge_calls (trace w') = bridge_calls (trace w)
     /\ w' = w)
  /\ (~ recognized (type command) ->
      exists (r : MCPResponse.t) (w' : World),
        handleCommand command w = (Return r, w')
        /\ MCPResponse.type r = "error"
        /\ MCPResponse.error r = Some "Unknown command"
        /\ bridge_calls (trace w') = bridge_calls (trace w)
        /\ w' = w).
Proof.
  split.
  - intros (fields & f & Hin & Hf & Habs).
    unfold required_fields in Hin. simpl in Hin.
    repeat match type of Hin with
    | _ \/ _ => destruct Hin as [Hin|Hin]
    end; try contradiction;
    injection Hin as Hty <-; simpl in Hf;
    repeat match type of Hf with
    | _ \/ _ => destruct Hf as [Hf|Hf]
    end; try contradiction; subst f; simpl in Habs;
    unfold handleCommand; rewrite <- Hty; decide_switch; rewrite Habs; simpl;
    try match goal with
    | |- context [match truthy_string ?x with _ => _ end] =>
        destruct (truthy_string x)
    end;
    (do 2 eexists; split; [reflexivity|]; simpl;
     split; [reflexivity|]; split; [|split; reflexivity];
     eexists; split; [reflexivity|discriminate]).
  - intros H. unfold handleCommand. rewrite (switch_unrecognized _ H).
    do 2 eexists. split; [reflexivity|]. simpl. auto.
Qed.

(** [{"type":"set_color","lightId":"1"}] lacks its colour, and
    [{"type":"dance","lightId":"1"}] is of no known type. *)
Lemma invalid_command_is_refused_without_bridge_call_witness :
  let w := Fixtures.started (Fixtures.bridge_accepting [Fixtures.kitchen])
             [Fixtures.kitchen] in
  (exists (r : MCPResponse.t) (w' : World),
     handleCommand (Fixtures.with_light "set_color" "1") w = (Return r, w')
     /\ MCPResponse.type r = "error"
     /\ (exists e : string, MCPResponse.error r = Some e /\ e <> "")
     /\ bridge_calls (trace w') = bridge_calls (trace w)
     /\ w' = w)
  /\ (exists (r : MCPResponse.t) (w' : World),
        handleCommand (Fixtures.with_light "dance" "1") w = (Return r, w')
        /\ MCPResponse.type r = "error"
        /\ MCPResponse.error r = Some "Unknown command"
        /\ bridge_calls (trace w') = bridge_calls (trace w)
        /\ w' = w).
Proof.
  split.
  - destruct (invalid_command_is_refused_without_bridge_call
                (Fixtures.with_light "set_color" "1")
                (Fixtures.started (Fixtures.bridge_accepting [Fixtures.kitchen])
                   [Fixtures.kitchen])) as [Hlacks _].
    apply Hlacks.
    exists [field_lightId; field_color], field_color. simpl. tauto.
  - destruct (invalid_command_is_refused_without_bridge_call
                (Fixtures.with_light "dance" "1")
                (Fixtures.started (Fixtures.bridge_accepting [Fixtures.kitchen])
                   [Fixtures.kitchen])) as [_ Hunknown].
    apply Hunknown.
    unfold recognized. simpl. intros H.
    repeat (destruct H as [H|H]; [discriminate H|]). exact H.
Defined.

End ValidationFacts.

(** ** Failures of decoding and handling *)

Module SessionFacts.
Import JS Interpreter Server Vocabulary MonadFacts FrameFacts.
Import MCPCommand.

(** C7: when [JSON.parse] throws on a message line, or an exception escapes
    [handleCommand], [handleMessage] returns normally, so that the [catch]
    of the caller has nothing to do; what it has added to the trace
    contains exactly one socket write, on the connection of the message,
    of a response of type "error" with a non-empty error string, and no
    closing of a socket. *)
Theorem failure_is_answered_by_one_error_line
    (JSON_parse : string -> Outcome MCPCommand.t)
    (line : string) (socket : nat) (w : World) :
  (exists e, JSON_parse line = Throw e)
  \/ (exists command e w1,
        JSON_parse line = Return command
        /\ handleCommand command w = (Throw e, w1)) ->
  exists (w' : World) (events : list Event) (reason : string),
    handleMessage JSON_parse line socket w = (Return tt, w')
    /\ dispatch JSON_parse line socket w = (Return tt, w')
    /\ trace w' = (trace w ++ events)%list
    /\ socket_writes events = [(socket, WResponse (MCPResponse.mk_error reason))]
    /\ MCPResponse.type (MCPResponse.mk_error reason) = "error"
    /\ reason <> ""
    /\ socket_closes events = [].
Proof.
  intros [[e He]|(command & e & w1 & Hparse & Hthrow)].
  - exists (record_event (EWrite socket (WResponse (error_of e "Invalid command format"))) w),
      [EWrite socket (WResponse (error_of e "Invalid command format"))],
      (or_str (message e) "Invalid command format").
    unfold dispatch, handleMessage, try_catch, bind. rewrite He. simpl.
    repeat split. now apply or_str_nonempty.
  - destruct (frames_handleCommand command w) as (_ & evs & Ht & Hall).
    rewrite Hthrow in Ht. simpl in Ht.
    destruct (internal_no_socket evs Hall) as [Hw Hc].
    exists (record_event (EWrite socket (WResponse (error_of e "Invalid command format"))) w1),
      (evs ++ [EWrite socket (WResponse (error_of e "Invalid command format"))])%list,
      (or_str (message e) "Invalid command format").
    unfold dispatch, handleMessage, try_catch, bind. rewrite Hparse, Hthrow. simpl.
    rewrite Ht, <- app_assoc, socket_writes_app, socket_closes_app, Hw, Hc.
    repeat split. now apply or_str_nonempty.
Qed.

(** A line that is not JSON, and [{"type":"get_groups"}] while the bridge
    rejects every call. *)
Lemma failure_is_answered_by_one_error_line_witness :
  let down := Fixtures.started (Fixtures.bridge_rejecting (Some "ECONNREFUSED")) [] in
  (exists (w' : World) (events : list Event) (reason : string),
     handleMessage Fixtures.decode "get_lights" 4%nat down = (Return tt, w')
     /\ dispatch Fixtures.decode "get_lights" 4%nat down = (Return tt, w')
     /\ trace w' = (trace down ++ events)%list
     /\ socket_writes events = [(4%nat, WResponse (MCPResponse.mk_error reason))]
     /\ MCPResponse.type (MCPResponse.mk_error reason) = "error"
     /\ reason <> ""
     /\ socket_closes events = [])
  /\ (exists (w' : World) (events : list Event) (reason : string),
        handleMessage Fixtures.decode Fixtures.line_get_groups 4%nat down = (Return tt, w')
        /\ dispatch Fixtures.decode Fixtures.line_get_groups 4%nat down = (Return tt, w')
        /\ trace w' = (trace down ++ events)%list
        /\ socket_writes events = [(4%nat, WResponse (MCPResponse.mk_error reason))]
        /\ MCPResponse.type (MCPResponse.mk_error reason) = "error"
        /\ reason <> ""
        /\ socket_closes events = []).
Proof.
  split.
  - apply (failure_is_answered_by_one_error_line Fixtures.decode "get_lights" 4%nat
             (Fixtures.started (Fixtures.bridge_rejecting (Some "ECONNREFUSED")) [])).
    left. eexists. reflexivity.
  - apply (failure_is_answered_by_one_error_line Fixtures.decode
             Fixtures.line_get_groups 4%nat
             (Fixtures.started (Fixtures.bridge_rejecting (Some "ECONNREFUSED")) [])).
    right. do 3 eexists. split; reflexivity.
Defined.

End SessionFacts.

(** ** The light list held by the server *)

Module SnapshotFacts.
Import JS Interpreter Server Vocabulary MonadFacts FrameFacts.
Import MCPCommand.

(** A start-up that succeeds has connected and fetched the lights once. *)
Lemma initialize_success (HUE_BRIDGE_IP HUE_USERNAME : option string)
    (connect : string -> string -> Settled Bridge) (now : Z) (w1 : World) :
  initializeHueBridge HUE_BRIDGE_IP HUE_USERNAME connect (initial_world now)
  = (Return tt, w1) ->
  exists host username hue ls,
    truthy_string HUE_BRIDGE_IP = Some host
    /\ truthy_string HUE_USERNAME = Some username
    /\ connect host username = Resolved hue
    /\ on_lights_getAll hue [] = Resolved ls
    /\ w1 = {| state := {| bridge := Some hue; lights := ls |}; Date_now := now;
              intervals := []; trace := [EBridge lights_getAll] |}.
Proof.
  unfold initializeHueBridge, try_catch.
  destruct (truthy_string HUE_BRIDGE_IP) as [host|]; [|discriminate].
  destruct (truthy_string HUE_USERNAME) as [username|]; [|discriminate].
  unfold bind at 1. destruct (connect host username) as [hue|e] eqn:Hc; [|discriminate].
  unfold bind, get_state, set_state, bridge_lights_getAll, bind, state_bridge,
    await_bridge. simpl.
  destruct (on_lights_getAll hue []) as [ls|e] eqn:Hl; simpl; [|discriminate].
  intros H. injection H as <-. exists host, username, hue, ls. auto.
Qed.

Lemma get_lights_reads_state (command : MCPCommand.t) (w : World) :
  type command = "get_lights" ->
  handleCommand command w
  = (Return (MCPResponse.mk_lights_list (map project_light (lights (state w)))), w).
Proof.
  intros Hty. unfold handleCommand. rewrite Hty. reflexivity.
Qed.

(** C3: after a start-up that succeeded, whatever the event loop has run
    since (messages handled, timers fired, time passed), a [get_lights]
    command returns the light list that the bridge resolved during
    [initializeHueBridge], each light projected to its id, name and state:
    the stored list is the one fetched then, and no later step has fetched
    the lights again. *)
Theorem get_lights_returns_the_startup_snapshot
    (JSON_parse : string -> Outcome MCPCommand.t)
    (HUE_BRIDGE_IP HUE_USERNAME : option string)
    (connect : string -> string -> Settled Bridge) (now : Z) (w1 : World)
    (steps : list Step) (command : MCPCommand.t) :
  initializeHueBridge HUE_BRIDGE_IP HUE_USERNAME connect (initial_world now)
  = (Return tt, w1) ->
  type command = "get_lights" ->
  exists host username hue ls w2 events,
    truthy_string HUE_BRIDGE_IP = Some host
    /\ truthy_string HUE_USERNAME = Some username
    /\ connect host username = Resolved hue
    /\ on_lights_getAll hue [] = Resolved ls
    /\ trace w1 = [EBridge lights_getAll]
    /\ run JSON_parse steps w1 = (Return tt, w2)
    /\ trace w2 = (trace w1 ++ events)%list
    /\ ~ In lights_getAll (bridge_calls events)
    /\ lights (state w2) = ls
    /\ handleCommand command w2
       = (Return (MCPResponse.mk_lights_list (map project_light ls)), w2).
Proof.
  intros Hinit Hty.
  destruct (initialize_success _ _ _ _ _ Hinit)
    as (host & username & hue & ls & Hh & Hu & Hc & Hl & ->).
  destruct (frames_run JSON_parse steps
              {| state := {| bridge := Some hue; lights := ls |}; Date_now := now;
                 intervals := []; trace := [EBridge lights_getAll] |})
    as (Hs & events & Ht & Hall).
  pose proof (run_returns JSON_parse steps
                {| state := {| bridge := Some hue; lights := ls |}; Date_now := now;
                   intervals := []; trace := [EBridge lights_getAll] |}) as Hret.
  destruct (run JSON_parse steps _) as [o w2]. simpl in *. subst o.
  exists host, username, hue, ls, w2, events.
  repeat split; try assumption.
  - apply (serving_no_close events Hall).
  - now rewrite Hs.
  - rewrite (get_lights_reads_state command w2 Hty), Hs. reflexivity.
Qed.

(** A start-up against a bridge that first reports [kitchen]; then a flash
    is handled, time passes and a timer fires. *)
Lemma get_lights_returns_the_startup_snapshot_witness :
  let steps := [step_message 0%nat Fixtures.line_flash_twice; step_elapse 10;
                step_timer 0%nat] in
  exists host username hue ls w2 events,
    truthy_string (Some "192.168.1.2") = Some host
    /\ truthy_string (Some "hue-user") = Some username
    /\ Resolved Fixtures.bridge_drifting = Resolved hue
    /\ on_lights_getAll hue [] = Resolved ls
    /\ trace Fixtures.after_startup = [EBridge lights_getAll]
    /\ run Fixtures.decode steps Fixtures.after_startup = (Return tt, w2)
    /\ trace w2 = (trace Fixtures.after_startup ++ events)%list
    /\ ~ In lights_getAll (bridge_calls events)
    /\ lights (state w2) = ls
    /\ handleCommand (MCPCommand.bare "get_lights") w2
       = (Return (MCPResponse.mk_lights_list (map project_light ls)), w2).
Proof.
  apply (get_lights_returns_the_startup_snapshot Fixtures.decode
           (Some "192.168.1.2") (Some "hue-user")
           (fun _ _ => Resolved Fixtures.bridge_drifting) 1000
           Fixtures.after_startup
           [step_message 0%nat Fixtures.line_flash_twice; step_elapse 10;
            step_timer 0%nat]
           (MCPCommand.bare "get_lights")).
  - reflexivity.
  - reflexivity.
Defined.

(** C2, as stated, fails: with the list [kitchen] stored at start-up and a
    bridge that now reports [kitchen_dimmed], [get_lights] answers with the
    stored list and the bridge receives no call. *)
Lemma get_lights_is_not_refetched :
  let w := Fixtures.after_startup in
  on_lights_getAll Fixtures.bridge_drifting (bridge_calls (trace w))
  = Resolved [Fixtures.kitchen_dimmed]
  /\ handleCommand (MCPCommand.bare "get_lights") w
     = (Return (MCPResponse.mk_lights_list [project_light Fixtures.kitchen]), w)
  /\ project_light Fixtures.kitchen <> project_light Fixtures.kitchen_dimmed
  /\ ~ every_query_refetches.
Proof.
  cbv zeta. split; [reflexivity|]. split; [reflexivity|]. split; [discriminate|].
  intros H.
  destruct (H (MCPCommand.bare "get_lights") Fixtures.after_startup
              Fixtures.bridge_drifting eq_refl) as [Hlights _].
  specialize (Hlights eq_refl [Fixtures.kitchen_dimmed] eq_refl).
  discriminate Hlights.
Qed.

(** C2, amended: [get_groups] and [get_scenes] fetch from the bridge when
    they are handled, by one call each, answer with the projection of what
    that call resolves to and leave the module-level [state] as it was;
    [get_lights] makes no call and answers from the list stored in
    [state]. *)
Theorem groups_and_scenes_are_refetched (command : MCPCommand.t) (w : World)
    (hue : Bridge) :
  bridge (state w) = Some hue ->
  (type command = "get_groups" ->
   forall gs, on_groups_getAll hue (bridge_calls (trace w)) = Resolved gs ->
     handleCommand command w
     = (Return (MCPResponse.mk_groups_list (map project_group gs)),
        record_event (EBridge groups_getAll) w))
  /\ (type command = "get_scenes" ->
      forall ss, on_scenes_getAll hue (bridge_calls (trace w)) = Resolved ss ->
        handleCommand command w
        = (Return (MCPResponse.mk_scenes_list (map project_scene ss)),
           record_event (EBridge scenes_getAll) w))
  /\ (type command = "get_lights" ->
      handleCommand command w
      = (Return (MCPResponse.mk_lights_list (map project_light (lights (state w)))),
         w))
  /\ state (record_event (EBridge groups_getAll) w) = state w
  /\ state (record_event (EBridge scenes_getAll) w) = state w.
Proof.
  intros Hb. split; [|split; [|split; [|split; reflexivity]]].
  - intros Hty gs Hgs. unfold handleCommand. rewrite Hty.
    change (switch "get_groups") with case_get_groups. cbv iota.
    unfold bind, bridge_groups_getAll, bind, state_bridge, await_bridge.
    rewrite Hb. simpl. rewrite Hgs. reflexivity.
  - intros Hty ss Hss. unfold handleCommand. rewrite Hty.
    change (switch "get_scenes") with case_get_scenes. cbv iota.
    unfold bind, bridge_scenes_getAll, bind, state_bridge, await_bridge.
    rewrite Hb. simpl. rewrite Hss. reflexivity.
  - apply get_lights_reads_state.
Qed.

(** [{"type":"get_groups"}] after start-up. *)
Lemma groups_and_scenes_are_refetched_witness :
  handleCommand (MCPCommand.bare "get_groups") Fixtures.after_startup
  = (Return (MCPResponse.mk_groups_list [project_group Fixtures.upstairs]),
     record_event (EBridge groups_getAll) Fixtures.after_startup).
Proof.
  destruct (groups_and_scenes_are_refetched (MCPCommand.bare "get_groups")
              Fixtures.after_startup Fixtures.bridge_drifting eq_refl)
    as [Hgroups _].
  apply (Hgroups eq_refl [Fixtures.upstairs]). reflexivity.
Defined.

End SnapshotFacts.

(** ** [set_group_state] *)

Module GroupFacts.
Import JS Interpreter Server Vocabulary MonadFacts.
Import MCPCommand.

(** The object built from the command holds [rgb], [bri], [ct] and
    [effect] for the fields that pass their tests, converted as the
    single-light commands convert them, and nothing else. *)
Lemma group_state_object_fields (command : MCPCommand.t) :
  group_state_object command !! "rgb" = VRgb <$> color command
  /\ group_state_object command !! "bri"
     = (fun b => VNum (num (Math_round (b / num 100 * num 254)))) <$> brightness command
  /\ group_state_object command !! "ct"
     = (fun t => VNum (num (Math_round (num 1000000 / t))))
         <$> truthy_number (temperature command)
  /\ group_state_object command !! "effect"
     = VStr <$> truthy_string (effectType command)
  /\ (forall k, k <> "rgb" -> k <> "bri" -> k <> "ct" -> k <> "effect" ->
      group_state_object command !! k = None).
Proof.
  unfold group_state_object.
  destruct (color command), (brightness command),
    (truthy_number (temperature command)), (truthy_string (effectType command));
    simpl; repeat split; try reflexivity;
    intros k H1 H2 H3 H4;
    rewrite ?lookup_insert_ne by congruence; apply lookup_empty.
Qed.

(** The local object has no [bridge] property. *)
Lemma group_state_object_has_no_bridge (command : MCPCommand.t) :
  group_state_object command !! "bridge" = None.
Proof.
  apply (group_state_object_fields command); discriminate.
Qed.

(** C1, on the code: a [set_group_state] command that carries a group
    identifier never reaches the bridge.  Inside the [try] block the name
    [state] is the object being built, so [state.bridge] is undefined, the
    read of [groups] on it throws a TypeError, and the [catch] clause
    answers with that error: no [setGroupState] call is made and the
    response is not the success response. *)
Theorem set_group_state_never_reaches_the_bridge (command : MCPCommand.t)
    (group : string) (w : World) :
  type command = "set_group_state" ->
  MCPCommand.group command = Some group -> group <> "" ->
  handleCommand command w
  = (Return (MCPResponse.mk_error
               "Cannot read properties of undefined (reading 'groups')"), w)
  /\ (forall st : gmap string JsVal,
        handleCommand command w
        <> (Return MCPResponse.mk_success,
            record_event (EBridge (groups_setGroupState group st)) w)).
Proof.
  intros Hty Hg Hne.
  enough (H : handleCommand command w
              = (Return (MCPResponse.mk_error
                   "Cannot read properties of undefined (reading 'groups')"), w))
    by (split; [exact H|intros st; rewrite H; discriminate]).
  unfold handleCommand. rewrite Hty.
  change (switch "set_group_state") with case_set_group_state. cbv iota.
  rewrite Hg, (truthy_string_nonempty _ Hne).
  unfold try_catch. cbv zeta. rewrite group_state_object_has_no_bridge.
  reflexivity.
Qed.

(** [{"type":"set_group_state","group":"7","color":[0,255,0],"brightness":50}]
    on a bridge that would accept every call: the object
    [{ rgb: [0,255,0], bri: 127 }] is built, and the answer is the
    TypeError. *)
Lemma set_group_state_never_reaches_the_bridge_witness :
  let w := Fixtures.started (Fixtures.bridge_accepting [Fixtures.kitchen])
             [Fixtures.kitchen] in
  group_state_object Fixtures.group_command
  = obj [("rgb", VRgb Fixtures.green); ("bri", VNum (num 127))]
  /\ handleCommand Fixtures.group_command w
     = (Return (MCPResponse.mk_error
                  "Cannot read properties of undefined (reading 'groups')"), w)
  /\ (forall st : gmap string JsVal,
        handleCommand Fixtures.group_command w
        <> (Return MCPResponse.mk_success,
            record_event (EBridge (groups_setGroupState "7" st)) w)).
Proof.
  split; [vm_compute; reflexivity|].
  apply (set_group_state_never_reaches_the_bridge Fixtures.group_command "7"
           (Fixtures.started (Fixtures.bridge_accepting [Fixtures.kitchen])
              [Fixtures.kitchen])).
  - reflexivity.
  - reflexivity.
  - discriminate.
Defined.

End GroupFacts.


(** ** One response per message *)

Module ResponseFacts.
Import JS Framing Interpreter Server Connection Vocabulary Terms MonadFacts FrameFacts.

Section Decoder.

Variable JSON_parse : string -> Outcome MCPCommand.t.

Lemma handleMessage_one_write (line : string) (socket : nat) (w : World) :
  exists (w' : World) (events : list Event) (r : MCPResponse.t),
    handleMessage JSON_parse line socket w = (Return tt, w')
    /\ trace w' = (trace w ++ events)%list
    /\ socket_writes events = [(socket, WResponse r)]
    /\ socket_closes events = []
    /\ state w' = state w.
Proof.
  unfold handleMessage, try_catch, bind.
  destruct (JSON_parse line) as [command|e].
  - destruct (frames_handleCommand command w) as (Hs & evs & Ht & Hall).
    destruct (internal_no_socket evs Hall) as [Hw Hc].
    destruct (handleCommand command w) as [[r|e] w1]; simpl in *.
    + exists (record_event (EWrite socket (WResponse r)) w1),
        (evs ++ [EWrite socket (WResponse r)])%list, r.
      simpl. rewrite Ht, <- app_assoc, socket_writes_app, socket_closes_app, Hw, Hc.
      auto.
    + exists (record_event (EWrite socket (WResponse (error_of e "Invalid command format"))) w1),
        (evs ++ [EWrite socket (WResponse (error_of e "Invalid command format"))])%list,
        (error_of e "Invalid command format").
      simpl. rewrite Ht, <- app_assoc, socket_writes_app, socket_closes_app, Hw, Hc.
      auto.
  - exists (record_event (EWrite socket (WResponse (error_of e "Invalid command format"))) w),
      [EWrite socket (WResponse (error_of e "Invalid command format"))],
      (error_of e "Invalid command format").
    simpl. auto.
Qed.


Lemma run_step_writes (s : Step) (w : World) :
  exists (w' : World) (events : list Event),
    run_step JSON_parse s w = (Return tt, w')
    /\ trace w' = (trace w ++ events)%list
    /\ map fst (socket_writes events) = message_sockets [s]
    /\ socket_closes events = []
    /\ state w' = state w.
Proof.
  destruct s as [socket line|id|ms]; simpl.
  - destruct (handleMessage_one_write line socket w)
      as (w' & events & r & H & Ht & Hw & Hc & Hs).
    exists w', events. unfold dispatch, try_catch. rewrite H, Hw. auto.
  - destruct (frames_interval_fires id w) as (Hs & evs & Ht & Hall).
    destruct (internal_no_socket evs Hall) as [Hw Hc].
    pose proof (interval_fires_returns id w) as Hret.
    destruct (interval_fires id w) as [o w']. simpl in *. subst o.
    exists w', evs. rewrite Hw. auto.
  - exists (advance_clock ms w), []. simpl. rewrite app_nil_r. auto.
Qed.

Lemma run_writes (steps : list Step) (w : World) :
  exists (w' : World) (events : list Event),
    run JSON_parse steps w = (Return tt, w')
    /\ trace w' = (trace w ++ events)%list
    /\ map fst (socket_writes events) = message_sockets steps
    /\ socket_closes events = []
    /\ state w' = state w.
Proof.
  revert w. induction steps as [|s steps IH]; intros w.
  - exists w, []. simpl. rewrite app_nil_r. auto.
  - destruct (run_step_writes s w) as (w1 & ev1 & H1 & Ht1 & Hw1 & Hc1 & Hs1).
    destruct (IH w1) as (w2 & ev2 & H2 & Ht2 & Hw2 & Hc2 & Hs2).
    exists w2, (ev1 ++ ev2)%list. simpl. unfold bind. rewrite H1, H2.
    rewrite Ht2, Ht1, <- app_assoc, socket_writes_app, socket_closes_app,
      map_app, Hw1, Hw2, Hc1, Hc2, Hs2, Hs1.
    repeat split. unfold message_sockets. simpl.
    destruct s; reflexivity.
Qed.

(** X2: however messages of several connections, timer firings and time
    are interleaved, the server keeps running: every step returns
    normally, each message is answered by exactly one write on its own
    socket and in the order handled, timers write nothing, no socket is
    ever closed and the module-level [state] is never written. *)
Theorem server_answers_each_message_on_its_socket (steps : list Step) (w : World) :
  exists (w' : World) (events : list Event),
    run JSON_parse steps w = (Return tt, w')
    /\ trace w' = (trace w ++ events)%list
    /\ map fst (socket_writes events) = message_sockets steps
    /\ socket_closes events = []
    /\ state w' = state w.
Proof. apply run_writes. Qed.

Lemma dispatch_all_is_run (messages : list string) (socket : nat) (w : World) :
  dispatch_all JSON_parse messages socket w
  = run JSON_parse (map (step_message socket) messages) w.
Proof.
  revert w. induction messages as [|m messages IH]; intros w; [reflexivity|].
  simpl. unfold bind. destruct (dispatch JSON_parse m socket w) as [[[]|e] w1];
    [apply IH|reflexivity].
Qed.

(** X3: one read answers every complete line it brings: the handler of
    [data] returns the new buffer after writing, on the socket of the
    connection, as many responses as the buffer and the chunk hold
    newline-terminated lines; the text after the last newline is held
    back unanswered. *)
Theorem one_read_answers_every_complete_line (buffer data : string) (socket : nat)
    (w : World) :
  exists (w' : World) (events : list Event),
    socket_on_data JSON_parse buffer data socket w
    = (Return (snd (on_data buffer data)), w')
    /\ trace w' = (trace w ++ events)%list
    /\ map fst (socket_writes events)
       = replicate (length (fst (on_data buffer data))) socket
    /\ indexOf (snd (on_data buffer data)) newline = -1.
Proof.
  destruct (run_writes
              (map (step_message socket) (fst (on_data buffer data))) w)
    as (w' & events & Hrun & Ht & Hw & _).
  exists w', events. unfold socket_on_data.
  destruct (FramingFacts.process_complete_messages_spec (buffer ++ data)%string)
    as (_ & _ & Hrest).
  fold (on_data buffer data) in Hrest.
  destruct (on_data buffer data) as [messages rest]. simpl in *.
  unfold bind. rewrite dispatch_all_is_run, Hrun.
  repeat split; try assumption.
  rewrite Hw. clear. induction messages as [|m ms IH]; [reflexivity|].
  simpl. unfold message_sockets in *. simpl. now rewrite IH.
Qed.

End Decoder.

Lemma append_empty (a : string) : (a ++ "")%string = a.
Proof.
  induction a as [|x a IH]; [reflexivity|].
  change (String x (a ++ "")%string = String x a). now f_equal.
Qed.

Lemma feed_is_on_data (toString : list Byte.byte -> string)
    (reads : list (list Byte.byte)) :
  forall buffer : string,
    indexOf buffer newline = -1 ->
    feed toString buffer reads = on_data buffer (joined (map toString reads)).
Proof.
  induction reads as [|data later IH]; intros buffer Hb.
  - simpl. unfold on_data. rewrite append_empty.
    rewrite FramingFacts.process_complete_messages_unfold.
    destruct (Z.eq_dec (indexOf buffer newline) (-1)); [reflexivity|contradiction].
  - cbn [feed map joined]. rewrite FramingFacts.on_data_split_reads.
    destruct (FramingFacts.process_complete_messages_spec
                (buffer ++ toString data)%string) as (_ & _ & Hrest).
    fold (on_data buffer (toString data)) in Hrest.
    destruct (on_data buffer (toString data)) as [messages rest]. simpl in *.
    rewrite (IH rest Hrest).
    now destruct (on_data rest (joined (map toString later))).
Qed.

(** X4: the handler decodes each read on its own ([data.toString()]), so
    framing is independent of how the stream is cut into reads whenever
    the cuts do not change the decoded text, that is, whenever the reads
    decoded one by one and put together are the decoding of the whole
    stream (no read ends inside a multi-byte character).  Then, fed read
    by read from the empty buffer of a new connection, the handler hands
    over the same messages, in the same order, and ends with the same
    buffer as when all the bytes arrive in one read; and the buffer it
    ends with holds no newline. *)
Theorem framing_ignores_cuts_between_characters
    (toString : list Byte.byte -> string) (reads : list (list Byte.byte)) :
  toString (concat reads) = joined (map toString reads) ->
  feed toString "" reads = on_data "" (toString (concat reads))
  /\ indexOf (snd (feed toString "" reads)) newline = -1.
Proof.
  intros Hcuts.
  assert (H : feed toString "" reads = on_data "" (toString (concat reads)))
    by (rewrite Hcuts; apply feed_is_on_data; reflexivity).
  split; [exact H|]. rewrite H.
  apply (FramingFacts.process_complete_messages_spec
           ("" ++ toString (concat reads))%string).
Qed.

(** A line and a half of ASCII bytes, which decode one by one, cut inside
    the first line: the first read hands over nothing, the second the
    first line, and the half line stays in the buffer. *)
Lemma framing_ignores_cuts_between_characters_witness :
  let reads := [list_byte_of_string "get_li";
                list_byte_of_string ("ghts" ++ String newline "get_")] in
  feed string_of_list_byte "" reads
  = on_data "" (string_of_list_byte (concat reads))
  /\ indexOf (snd (feed string_of_list_byte "" reads)) newline = -1.
Proof.
  apply (framing_ignores_cuts_between_characters string_of_list_byte
           [list_byte_of_string "get_li";
            list_byte_of_string ("ghts" ++ String newline "get_")]).
  reflexivity.
Defined.

End ResponseFacts.


(** ** The single-call commands *)

Module CommandFacts.
Import JS Interpreter Server Vocabulary Terms MonadFacts FrameFacts.
Import MCPCommand.

(** Evaluates [switch] on a literal type. *)
Ltac decide_case :=
  match goal with
  | |- context [switch ?s] =>
      let c := eval vm_compute in (switch s) in
      change (switch s) with c; cbv iota
  end.

(** The shape shared by the commands that make one [setLightState] call. *)
Lemma one_light_call (w : World) (hue : Bridge) (id : string)
    (st : gmap string JsVal) (fallback : string) :
  bridge (state w) = Some hue ->
  try_catch
    (bridge_lights_setLightState id st ;;; ret MCPResponse.mk_success)
    (fun error => ret (error_of error fallback)) w
  = (Return match on_setLightState hue (bridge_calls (trace w)) id st with
            | Resolved _ => MCPResponse.mk_success
            | Rejected e => error_of e fallback
            end,
     record_event (EBridge (lights_setLightState id st)) w).
Proof.
  intros Hb. unfold try_catch, bind.
  destruct (on_setLightState hue (bridge_calls (trace w)) id st) as [a|e] eqn:E.
  - now rewrite (setLightState_resolved w hue id st a Hb E).
  - now rewrite (setLightState_rejected w hue id st e Hb E).
Qed.

(** X5: a [set_color] command with a lightId and a colour makes the bridge
    receive exactly one call, [{ on: true, bri: 254, rgb: color }] with the
    colour as given (no channel is checked or clamped); the answer is the
    success response when the bridge resolves the call and otherwise an
    error carrying the bridge's message or, when it has none,
    "Failed to set light color". *)
Theorem set_color_forwards_the_colour (command : MCPCommand.t) (lightId : string)
    (color : rgb) (w : World) (hue : Bridge) :
  type command = "set_color" ->
  MCPCommand.lightId command = Some lightId -> lightId <> "" ->
  MCPCommand.color command = Some color ->
  bridge (state w) = Some hue ->
  let st := obj [("on", VBool true); ("bri", VNum (num 254)); ("rgb", VRgb color)] in
  handleCommand command w
  = (Return match on_setLightState hue (bridge_calls (trace w)) lightId st with
            | Resolved _ => MCPResponse.mk_success
            | Rejected e =>
                MCPResponse.mk_error (or_str (message e) "Failed to set light color")
            end,
     record_event (EBridge (lights_setLightState lightId st)) w).
Proof.
  intros Hty Hid Hne Hc Hb st. unfold handleCommand. rewrite Hty. decide_case.
  rewrite Hid, Hc, (truthy_string_nonempty _ Hne).
  apply (one_light_call w hue lightId st _ Hb).
Qed.

(** [{"type":"set_color","lightId":"1","color":[0,255,0]}] on a bridge that
    rejects without a message. *)
Lemma set_color_forwards_the_colour_witness :
  let w := Fixtures.started (Fixtures.bridge_rejecting None) [] in
  let st := obj [("on", VBool true); ("bri", VNum (num 254));
                 ("rgb", VRgb Fixtures.green)] in
  handleCommand
    {| type := "set_color"; MCPCommand.lightId := Some "1";
       color := Some Fixtures.green; times := None; brightness := None;
       effectType := None; transitionTime := None; alert := None;
       temperature := None; scene := None; group := None; duration := None;
       speed := None |} w
  = (Return (MCPResponse.mk_error "Failed to set light color"),
     record_event (EBridge (lights_setLightState "1" st)) w).
Proof.
  apply (set_color_forwards_the_colour
           {| type := "set_color"; MCPCommand.lightId := Some "1";
              color := Some Fixtures.green; times := None; brightness := None;
              effectType := None; transitionTime := None; alert := None;
              temperature := None; scene := None; group := None; duration := None;
              speed := None |} "1" Fixtures.green
           (Fixtures.started (Fixtures.bridge_rejecting None) [])
           (Fixtures.bridge_rejecting None)).
  - reflexivity.
  - reflexivity.
  - discriminate.
  - reflexivity.
  - reflexivity.
Defined.

(** X6: a [set_effect] command forwards the effect name as it is, in an
    object that has no other property (the light is not switched on); an
    empty name is refused like a missing one, without a call. *)
Theorem set_effect_forwards_the_name (command : MCPCommand.t) (lightId : string)
    (w : World) (hue : Bridge) :
  type command = "set_effect" ->
  MCPCommand.lightId command = Some lightId -> lightId <> "" ->
  bridge (state w) = Some hue ->
  (forall name : string,
     effectType command = Some name -> name <> "" ->
     handleCommand command w
     = (Return match on_setLightState hue (bridge_calls (trace w)) lightId
                       (obj [("effect", VStr name)]) with
               | Resolved _ => MCPResponse.mk_success
               | Rejected e =>
                   MCPResponse.mk_error (or_str (message e) "Failed to set effect")
               end,
        record_event
          (EBridge (lights_setLightState lightId (obj [("effect", VStr name)]))) w))
  /\ (effectType command = Some "" ->
      handleCommand command w
      = (Return (MCPResponse.mk_error "Missing lightId or effectType"), w)).
Proof.
  intros Hty Hid Hne Hb. split.
  - intros name He Hname. unfold handleCommand. rewrite Hty. decide_case.
    rewrite Hid, He, !truthy_string_nonempty by assumption.
    apply (one_light_call w hue lightId _ _ Hb).
  - intros He. unfold handleCommand. rewrite Hty. decide_case.
    rewrite Hid, He, (truthy_string_nonempty _ Hne). reflexivity.
Qed.

(** [{"type":"set_effect","lightId":"1","effectType":"colorloop"}]. *)
Lemma set_effect_forwards_the_name_witness :
  let w := Fixtures.started (Fixtures.bridge_accepting []) [] in
  let command :=
    {| type := "set_effect"; MCPCommand.lightId := Some "1"; color := None;
       times := None; brightness := None; effectType := Some "colorloop";
       transitionTime := None; alert := None; temperature := None;
       scene := None; group := None; duration := None; speed := None |} in
  handleCommand command w
  = (Return MCPResponse.mk_success,
     record_event
       (EBridge (lights_setLightState "1" (obj [("effect", VStr "colorloop")]))) w).
Proof.
  destruct (set_effect_forwards_the_name
              {| type := "set_effect"; MCPCommand.lightId := Some "1"; color := None;
                 times := None; brightness := None; effectType := Some "colorloop";
                 transitionTime := None; alert := None; temperature := None;
                 scene := None; group := None; duration := None; speed := None |}
              "1" (Fixtures.started (Fixtures.bridge_accepting []) [])
              (Fixtures.bridge_accepting [])) as [H _].
  - reflexivity.
  - reflexivity.
  - discriminate.
  - reflexivity.
  - apply (H "colorloop"); [reflexivity|discriminate].
Defined.

(** X7: a [turn_off] command makes the bridge receive exactly one call,
    whose object has the single property [on: false]; the answer is the
    success response when that call resolves and otherwise the bridge's
    message or "Failed to turn off light". *)
Theorem turn_off_sends_only_off (command : MCPCommand.t) (lightId : string)
    (w : World) (hue : Bridge) :
  type command = "turn_off" ->
  MCPCommand.lightId command = Some lightId -> lightId <> "" ->
  bridge (state w) = Some hue ->
  handleCommand command w
  = (Return match on_setLightState hue (bridge_calls (trace w)) lightId
                    (obj [("on", VBool false)]) with
            | Resolved _ => MCPResponse.mk_success
            | Rejected e =>
                MCPResponse.mk_error (or_str (message e) "Failed to turn off light")
            end,
     record_event
       (EBridge (lights_setLightState lightId (obj [("on", VBool false)]))) w)
  /\ dom (obj [("on", VBool false)]) = ({["on"]} : gset string).
Proof.
  intros Hty Hid Hne Hb. split.
  - unfold handleCommand. rewrite Hty. decide_case.
    rewrite Hid, (truthy_string_nonempty _ Hne).
    apply (one_light_call w hue lightId _ _ Hb).
  - unfold obj. simpl. rewrite dom_insert_L, dom_empty_L. set_solver.
Qed.

(** [{"type":"turn_off","lightId":"1"}]. *)
Lemma turn_off_sends_only_off_witness :
  let w := Fixtures.started (Fixtures.bridge_accepting []) [] in
  handleCommand (Fixtures.with_light "turn_off" "1") w
  = (Return MCPResponse.mk_success,
     record_event
       (EBridge (lights_setLightState "1" (obj [("on", VBool false)]))) w).
Proof.
  apply (turn_off_sends_only_off (Fixtures.with_light "turn_off" "1") "1"
           (Fixtures.started (Fixtures.bridge_accepting []) [])
           (Fixtures.bridge_accepting [])).
  - reflexivity.
  - reflexivity.
  - discriminate.
  - reflexivity.
Defined.

(** X8: an [activate_scene] command with a scene identifier makes exactly
    one [activateScene] call with that identifier and no light call,
    whether or not the command names a light; the answer is the success
    response or the bridge's message or "Failed to activate scene". *)
Theorem activate_scene_calls_the_scene (command : MCPCommand.t) (scene : string)
    (w : World) (hue : Bridge) :
  type command = "activate_scene" ->
  MCPCommand.scene command = Some scene -> scene <> "" ->
  bridge (state w) = Some hue ->
  handleCommand command w
  = (Return match on_activateScene hue (bridge_calls (trace w)) scene with
            | Resolved _ => MCPResponse.mk_success
            | Rejected e =>
                MCPResponse.mk_error (or_str (message e) "Failed to activate scene")
            end,
     record_event (EBridge (scenes_activateScene scene)) w).
Proof.
  intros Hty Hs Hne Hb. unfold handleCommand. rewrite Hty. decide_case.
  rewrite Hs, (truthy_string_nonempty _ Hne).
  unfold try_catch, bind, bridge_scenes_activateScene, bind, state_bridge,
    await_bridge. rewrite Hb. simpl.
  destruct (on_activateScene hue (bridge_calls (trace w)) scene); reflexivity.
Qed.

(** [{"type":"activate_scene","scene":"abc123"}]. *)
Lemma activate_scene_calls_the_scene_witness :
  let w := Fixtures.started (Fixtures.bridge_accepting []) [] in
  let command :=
    {| type := "activate_scene"; MCPCommand.lightId := None; color := None;
       times := None; brightness := None; effectType := None;
       transitionTime := None; alert := None; temperature := None;
       scene := Some "abc123"; group := None; duration := None; speed := None |} in
  handleCommand command w
  = (Return MCPResponse.mk_success,
     record_event (EBridge (scenes_activateScene "abc123")) w).
Proof.
  apply (activate_scene_calls_the_scene
           {| type := "activate_scene"; MCPCommand.lightId := None; color := None;
              times := None; brightness := None; effectType := None;
              transitionTime := None; alert := None; temperature := None;
              scene := Some "abc123"; group := None; duration := None;
              speed := None |} "abc123"
           (Fixtures.started (Fixtures.bridge_accepting []) [])
           (Fixtures.bridge_accepting [])).
  - reflexivity.
  - reflexivity.
  - discriminate.
  - reflexivity.
Defined.

End CommandFacts.


(** ** The two conversions *)

Module ConversionFacts.
Import JS Interpreter Server Vocabulary Terms MonadFacts BrightnessFacts CommandFacts.
Import MCPCommand.

(** On whole Kelvin values the conversion to mired is integer
    arithmetic. *)
Lemma Math_round_mired (t : Z) :
  0 < t -> Math_round (num 1000000 / num t) = (2000000 + t) / (2 * t).
Proof.
  intros Ht. destruct t as [|p|p]; try lia.
  unfold Math_round, num, Qfloor, Qdiv, Qmult, Qplus, Qinv, inject_Z. simpl.
  f_equal; lia.
Qed.

Lemma ct_in_range (t : Z) :
  2000 <= t <= 6500 -> 154 <= Math_round (num 1000000 / num t) <= 500.
Proof.
  intros Ht. rewrite Math_round_mired by lia. split.
  - apply Z.div_le_lower_bound; lia.
  - enough ((2000000 + t) / (2 * t) < 501) by lia.
    apply Z.div_lt_upper_bound; lia.
Qed.

Lemma ct_double_agrees (t : Z) :
  2000 <= t <= 6500 -> Double.ct t = Some (Math_round (num 1000000 / num t)).
Proof.
  intros Ht.
  assert (Hall : forallb
            (fun n => match Double.ct (Z.of_nat n) with
                      | Some r => r =? Math_round (num 1000000 / num (Z.of_nat n))
                      | None => false
                      end) (seq 2000 4501) = true) by (vm_compute; reflexivity).
  rewrite forallb_forall in Hall.
  specialize (Hall (Z.to_nat t)). rewrite Z2Nat.id in Hall by lia.
  assert (Hin : In (Z.to_nat t) (seq 2000 4501)) by (apply in_seq; lia).
  specialize (Hall Hin).
  destruct (Double.ct t) as [r|]; [|discriminate].
  apply Z.eqb_eq in Hall. now subst r.
Qed.

(** X9: a [set_temperature] command with a lightId and a whole temperature
    [t] between 2000 and 6500 Kelvin makes the bridge receive one call,
    [{ on: true, ct: round(1000000 / t) }], where [ct] lies between 154 and
    500 mired and is the same integer when computed on binary64 numbers;
    the answer is the success response or the bridge's message or
    "Failed to set color temperature". *)
Theorem set_temperature_converts_to_mired (command : MCPCommand.t)
    (lightId : string) (t : Z) (w : World) (hue : Bridge) :
  type command = "set_temperature" ->
  MCPCommand.lightId command = Some lightId -> lightId <> "" ->
  temperature command = Some (num t) -> 2000 <= t <= 6500 ->
  bridge (state w) = Some hue ->
  let ct := Math_round (num 1000000 / num t) in
  let st := obj [("on", VBool true); ("ct", VNum (num ct))] in
  handleCommand command w
  = (Return match on_setLightState hue (bridge_calls (trace w)) lightId st with
            | Resolved _ => MCPResponse.mk_success
            | Rejected e =>
                MCPResponse.mk_error
                  (or_str (message e) "Failed to set color temperature")
            end,
     record_event (EBridge (lights_setLightState lightId st)) w)
  /\ ct = (2000000 + t) / (2 * t)
  /\ 154 <= ct <= 500
  /\ Double.ct t = Some ct.
Proof.
  intros Hty Hid Hne Ht Hrange Hb ct st. subst ct st.
  split; [|split; [|split]].
  - unfold handleCommand. rewrite Hty. decide_case.
    rewrite Hid, Ht, (truthy_string_nonempty _ Hne).
    assert (E : truthy_number (Some (num t)) = Some (num t)).
    { unfold truthy_number.
      destruct (truthy_num (num t)) eqn:F; [reflexivity|].
      apply truthy_num_false in F. unfold num, Qeq in F. simpl in F. lia. }
    rewrite E. apply (one_light_call w hue lightId _ _ Hb).
  - apply Math_round_mired. lia.
  - now apply ct_in_range.
  - now apply ct_double_agrees.
Qed.

(** [{"type":"set_temperature","lightId":"1","temperature":2700}]: 370
    mired. *)
Lemma set_temperature_converts_to_mired_witness :
  let w := Fixtures.started (Fixtures.bridge_accepting []) [] in
  let command :=
    {| type := "set_temperature"; MCPCommand.lightId := Some "1"; color := None;
       times := None; brightness := None; effectType := None;
       transitionTime := None; alert := None; temperature := Some (num 2700);
       scene := None; group := None; duration := None; speed := None |} in
  let st := obj [("on", VBool true); ("ct", VNum (num 370))] in
  handleCommand command w
  = (Return MCPResponse.mk_success,
     record_event (EBridge (lights_setLightState "1" st)) w)
  /\ 370 = (2000000 + 2700) / (2 * 2700)
  /\ 154 <= 370 <= 500
  /\ Double.ct 2700 = Some 370.
Proof.
  apply (set_temperature_converts_to_mired
           {| type := "set_temperature"; MCPCommand.lightId := Some "1";
              color := None; times := None; brightness := None; effectType := None;
              transitionTime := None; alert := None; temperature := Some (num 2700);
              scene := None; group := None; duration := None; speed := None |}
           "1" 2700 (Fixtures.started (Fixtures.bridge_accepting []) [])
           (Fixtures.bridge_accepting [])).
  - reflexivity.
  - reflexivity.
  - discriminate.
  - reflexivity.
  - lia.
  - reflexivity.
Defined.

(** X10: the interpreter never divides by a zero temperature: a
    [set_temperature] command whose temperature is zero is refused like one
    without a temperature, with "Missing lightId or temperature" and
    without a bridge call. *)
Theorem zero_temperature_is_refused (command : MCPCommand.t) (t : Q) (w : World) :
  type command = "set_temperature" ->
  temperature command = Some t -> (t == 0)%Q ->
  handleCommand command w
  = (Return (MCPResponse.mk_error "Missing lightId or temperature"), w).
Proof.
  intros Hty Ht H0. unfold handleCommand. rewrite Hty. decide_case.
  rewrite Ht. unfold truthy_number.
  apply truthy_num_false in H0. rewrite H0.
  destruct (truthy_string (lightId command)); reflexivity.
Qed.

(** [{"type":"set_temperature","lightId":"1","temperature":0}]. *)
Lemma zero_temperature_is_refused_witness :
  let w := Fixtures.started (Fixtures.bridge_accepting []) [] in
  let command :=
    {| type := "set_temperature"; MCPCommand.lightId := Some "1"; color := None;
       times := None; brightness := None; effectType := None;
       transitionTime := None; alert := None; temperature := Some (num 0);
       scene := None; group := None; duration := None; speed := None |} in
  handleCommand command w
  = (Return (MCPResponse.mk_error "Missing lightId or temperature"), w).
Proof.
  apply (zero_temperature_is_refused
           {| type := "set_temperature"; MCPCommand.lightId := Some "1";
              color := None; times := None; brightness := None; effectType := None;
              transitionTime := None; alert := None; temperature := Some (num 0);
              scene := None; group := None; duration := None; speed := None |}
           (num 0) (Fixtures.started (Fixtures.bridge_accepting []) [])).
  - reflexivity.
  - reflexivity.
  - reflexivity.
Defined.

(** Evaluated on binary64 numbers, the scaling of a whole brightness of
    either sign, up to a thousand, gives the same integer as on exact
    rationals. *)
Lemma bri_binary64_agrees (b : Z) :
  -1000 <= b <= 1000 -> Binary64.bri b = Some ((254 * b + 50) / 100).
Proof.
  intros Hb.
  assert (Hall : forallb
            (fun n => let b := Z.of_nat n - 1000 in
                      match Binary64.bri b with
                      | Some r => r =? (254 * b + 50) / 100
                      | None => false
                      end) (seq 0 (Z.to_nat 2001)) = true) by (vm_compute; reflexivity).
  rewrite forallb_forall in Hall.
  specialize (Hall (Z.to_nat (b + 1000))).
  cbv zeta in Hall. rewrite Z2Nat.id in Hall by lia.
  replace (b + 1000 - 1000) with b in Hall by lia.
  assert (Hin : In (Z.to_nat (b + 1000)) (seq 0 (Z.to_nat 2001)))
    by (apply in_seq; lia).
  specialize (Hall Hin).
  destruct (Binary64.bri b) as [r|]; [|discriminate].
  apply Z.eqb_eq in Hall. now subst r.
Qed.

(** X11: [set_brightness] does not check the range of the brightness: for
    every whole [b] from -1000 to 1000, zero included, the bridge
    receives [bri = floor((254 b + 50) / 100)], which is also what the
    scaling gives on binary64 numbers, and that value lies between 0 and
    254 exactly when [b] lies between 0 and 100. *)
Theorem set_brightness_forwards_a_percentage_out_of_range (command : MCPCommand.t)
    (lightId : string) (b : Z) (w : World) (hue : Bridge) :
  type command = "set_brightness" ->
  MCPCommand.lightId command = Some lightId -> lightId <> "" ->
  brightness command = Some (num b) ->
  -1000 <= b <= 1000 ->
  bridge (state w) = Some hue ->
  let bri := (254 * b + 50) / 100 in
  let st := obj [("on", VBool true); ("bri", VNum (num bri))] in
  handleCommand command w
  = (Return match on_setLightState hue (bridge_calls (trace w)) lightId st with
            | Resolved _ => MCPResponse.mk_success
            | Rejected e =>
                MCPResponse.mk_error (or_str (message e) "Failed to set brightness")
            end,
     record_event (EBridge (lights_setLightState lightId st)) w)
  /\ Binary64.bri b = Some bri
  /\ (0 <= bri <= 254 <-> 0 <= b <= 100).
Proof.
  intros Hty Hid Hne Hbr Hrange Hb bri st. subst bri st. split; [|split].
  - unfold handleCommand. rewrite Hty. decide_case.
    rewrite Hid, Hbr, (truthy_string_nonempty _ Hne). cbv zeta.
    rewrite Math_round_percent.
    apply (one_light_call w hue lightId _ _ Hb).
  - now apply bri_binary64_agrees.
  - split.
    + intros [Hlo Hhi].
      assert (H1 : 0 <= b).
      { destruct (Z_lt_le_dec b 0) as [Hneg|]; [|assumption].
        assert ((254 * b + 50) / 100 < 0) by (apply Z.div_lt_upper_bound; lia). lia. }
      assert (H2 : b <= 100).
      { destruct (Z_lt_le_dec 100 b) as [Hbig|]; [|assumption].
        assert (255 <= (254 * b + 50) / 100) by (apply Z.div_le_lower_bound; lia).
        lia. }
      lia.
    + intros Hr. rewrite <- Math_round_percent. now apply bri_in_range.
Qed.

(** [{"type":"set_brightness","lightId":"1","brightness":150}]: the bridge
    is sent 381. *)
Lemma set_brightness_forwards_a_percentage_out_of_range_witness :
  let w := Fixtures.started (Fixtures.bridge_accepting []) [] in
  let st := obj [("on", VBool true); ("bri", VNum (num 381))] in
  handleCommand (Fixtures.brightness_command (num 150)) w
  = (Return MCPResponse.mk_success,
     record_event (EBridge (lights_setLightState "1" st)) w)
  /\ Binary64.bri 150 = Some 381
  /\ (0 <= 381 <= 254 <-> 0 <= 150 <= 100).
Proof.
  apply (set_brightness_forwards_a_percentage_out_of_range
           (Fixtures.brightness_command (num 150)) "1" 150
           (Fixtures.started (Fixtures.bridge_accepting []) [])
           (Fixtures.bridge_accepting [])).
  - reflexivity.
  - reflexivity.
  - discriminate.
  - reflexivity.
  - lia.
  - reflexivity.
Defined.

End ConversionFacts.


(** ** What [handleCommand] returns, and when it throws *)

Module ShapeFacts.
Import JS Interpreter Server Vocabulary Terms MonadFacts FrameFacts CommandFacts.
Import MCPCommand.

Lemma returns_ret {A : Type} (P : A -> Prop) (a : A) : P a -> returns P (ret a).
Proof. intros H w a' w' E. injection E as <- _. exact H. Qed.

Lemma returns_bind {A B : Type} (P : B -> Prop) (m : M A) (k : A -> M B) :
  (forall a, returns P (k a)) -> returns P (bind m k).
Proof.
  intros Hk w b w' E. unfold bind in E.
  destruct (m w) as [[a|e] w1]; [exact (Hk a w1 b w' E)|discriminate].
Qed.

Lemma returns_try_catch {A : Type} (P : A -> Prop) (body : M A)
    (handler : Error -> M A) :
  returns P body -> (forall e, returns P (handler e)) ->
  returns P (try_catch body handler).
Proof.
  intros Hb Hh w a w' E. unfold try_catch in E.
  destruct (body w) as [[a1|e] w1] eqn:F.
  - injection E as <- <-. exact (Hb w a1 w1 F).
  - exact (Hh e w1 a w' E).
Qed.

Lemma returns_throw {A : Type} (P : A -> Prop) (e : Error) : returns P (@throw A e).
Proof. intros w a w' E. discriminate E. Qed.

Lemma well_formed_error_of (e : Error) (fallback : string) :
  fallback <> "" -> well_formed (error_of e fallback).
Proof.
  intros H. left. exists (or_str (message e) fallback).
  split; [now apply or_str_nonempty|reflexivity].
Qed.

Lemma well_formed_mk_error (e : string) : e <> "" -> well_formed (MCPResponse.mk_error e).
Proof. intros H. left. exists e. auto. Qed.

Lemma well_formed_success : well_formed MCPResponse.mk_success.
Proof. right. left. reflexivity. Qed.

(** X12: every response that [handleCommand] returns has one of five
    shapes: an error with a non-empty string and no other payload, the
    bare success flag, or a list of lights, of groups or of scenes; in
    particular an error never carries partial data and never an empty
    text, also when the bridge rejects without a message. *)
Theorem responses_are_well_formed (command : MCPCommand.t) (w w' : World)
    (r : MCPResponse.t) :
  handleCommand command w = (Return r, w') -> well_formed r.
Proof.
  revert w r w'. change (returns well_formed (handleCommand command)).
  unfold handleCommand.
  destruct (switch (type command));
    repeat first
      [ apply returns_try_catch; [|intros]
      | apply returns_bind; intros
      | apply returns_ret
      | apply returns_throw
      | apply well_formed_error_of; discriminate
      | apply well_formed_mk_error; discriminate
      | apply well_formed_success
      | match goal with
        | |- returns _ (match ?x with _ => _ end) => destruct x
        end ].
  - right. right. left. eexists. reflexivity.
  - right. right. right. left. eexists. reflexivity.
  - right. right. right. right. eexists. reflexivity.
Qed.

(** A bridge failure with an empty message during [turn_off]. *)
Lemma responses_are_well_formed_witness :
  well_formed (MCPResponse.mk_error "Failed to turn off light").
Proof.
  apply (responses_are_well_formed (Fixtures.with_light "turn_off" "1")
           (Fixtures.started (Fixtures.bridge_rejecting (Some "")) [])
           (record_event
              (EBridge (lights_setLightState "1" (obj [("on", VBool false)])))
              (Fixtures.started (Fixtures.bridge_rejecting (Some "")) []))).
  reflexivity.
Defined.

Lemma never_throws_try_ret {A : Type} (body : M A) (f : Error -> A) :
  never_throws (try_catch body (fun error => ret (f error))).
Proof.
  intros w. unfold try_catch.
  destruct (body w) as [[a|e] w1]; [exists a, w1|exists (f e), w1]; reflexivity.
Qed.

Lemma only_the_list_queries_throw_aux (command : MCPCommand.t) (w : World)
    (hue : Bridge) (e : Error) :
  bridge (state w) = Some hue ->
  (type command = "get_groups" ->
   on_groups_getAll hue (bridge_calls (trace w)) = Rejected e ->
   handleCommand command w = (Throw e, record_event (EBridge groups_getAll) w))
  /\ (type command = "get_scenes" ->
      on_scenes_getAll hue (bridge_calls (trace w)) = Rejected e ->
      handleCommand command w = (Throw e, record_event (EBridge scenes_getAll) w)).
Proof.
  intros Hb. split; intros Hty Hrej; unfold handleCommand; rewrite Hty;
    decide_case;
    unfold bind, bridge_groups_getAll, bridge_scenes_getAll, bind, state_bridge,
      await_bridge; rewrite Hb; simpl; rewrite Hrej; reflexivity.
Qed.

(** X13: apart from the two list queries, whose bridge call is not inside a
    [try], no command lets an exception out of [handleCommand], whatever
    the bridge does and even while it is not connected; a [get_groups] or
    [get_scenes] command does throw when the bridge rejects the query. *)
Theorem only_the_list_queries_throw (command : MCPCommand.t) (w : World) :
  (type command <> "get_groups" -> type command <> "get_scenes" ->
   exists (r : MCPResponse.t) (w' : World), handleCommand command w = (Return r, w'))
  /\ (forall hue e,
        bridge (state w) = Some hue ->
        (type command = "get_groups" ->
         on_groups_getAll hue (bridge_calls (trace w)) = Rejected e ->
         handleCommand command w = (Throw e, record_event (EBridge groups_getAll) w))
        /\ (type command = "get_scenes" ->
            on_scenes_getAll hue (bridge_calls (trace w)) = Rejected e ->
            handleCommand command w
            = (Throw e, record_event (EBridge scenes_getAll) w))).
Proof.
  split.
  - intros Hg Hs. unfold handleCommand, switch.
    repeat match goal with
    | |- context [String.eqb (type command) ?s] =>
        destruct (String.eqb_spec (type command) s) as [?|_]
    end; try contradiction;
    repeat match goal with
    | |- context [match ?x with _ => _ end] => destruct x
    end;
    first [ apply never_throws_try_ret | do 2 eexists; reflexivity ].
  - intros hue e Hb. now apply only_the_list_queries_throw_aux.
Qed.

(** A flash while the bridge is not connected, and [get_groups] on a bridge
    that rejects. *)
Lemma only_the_list_queries_throw_witness :
  (exists (r : MCPResponse.t) (w' : World),
     handleCommand (Fixtures.flash_command None) (initial_world 0) = (Return r, w'))
  /\ handleCommand (MCPCommand.bare "get_groups")
       (Fixtures.started (Fixtures.bridge_rejecting None) [])
     = (Throw {| message := None |},
        record_event (EBridge groups_getAll)
          (Fixtures.started (Fixtures.bridge_rejecting None) [])).
Proof.
  split.
  - destruct (only_the_list_queries_throw (Fixtures.flash_command None)
                (initial_world 0)) as [H _].
    apply H; discriminate.
  - destruct (only_the_list_queries_throw (MCPCommand.bare "get_groups")
                (Fixtures.started (Fixtures.bridge_rejecting None) [])) as [_ H].
    destruct (H (Fixtures.bridge_rejecting None) {| message := None |} eq_refl)
      as [Hg _].
    apply Hg; reflexivity.
Defined.

Section Decoder.

Variable JSON_parse : string -> Outcome MCPCommand.t.

(** X14: when the bridge rejects the query of a [get_groups] or
    [get_scenes] command, the error is caught only by [handleMessage]: the
    line written carries the bridge's message, and when the bridge gave
    none it reads "Invalid command format", although the command was
    decoded and valid. *)
Theorem failed_list_query_is_reported_as_invalid_format (line : string)
    (socket : nat) (command : MCPCommand.t) (w : World) (hue : Bridge) (e : Error) :
  JSON_parse line = Return command ->
  bridge (state w) = Some hue ->
  (type command = "get_groups"
   /\ on_groups_getAll hue (bridge_calls (trace w)) = Rejected e)
  \/ (type command = "get_scenes"
      /\ on_scenes_getAll hue (bridge_calls (trace w)) = Rejected e) ->
  exists call,
    handleMessage JSON_parse line socket w
    = (Return tt,
       record_event
         (EWrite socket
            (WResponse (MCPResponse.mk_error
                          (or_str (message e) "Invalid command format"))))
         (record_event (EBridge call) w))
    /\ (call = groups_getAll \/ call = scenes_getAll).
Proof.
  intros Hparse Hb Hcase.
  destruct (only_the_list_queries_throw_aux command w hue e Hb) as [Hg Hs].
  destruct Hcase as [[Hty Hrej]|[Hty Hrej]].
  - exists groups_getAll. split; [|now left].
    unfold handleMessage, try_catch, bind. now rewrite Hparse, (Hg Hty Hrej).
  - exists scenes_getAll. split; [|now right].
    unfold handleMessage, try_catch, bind. now rewrite Hparse, (Hs Hty Hrej).
Qed.

End Decoder.

(** [{"type":"get_groups"}] on a bridge that rejects without a message. *)
Lemma failed_list_query_is_reported_as_invalid_format_witness :
  let w := Fixtures.started (Fixtures.bridge_rejecting None) [] in
  exists call,
    handleMessage Fixtures.decode Fixtures.line_get_groups 2%nat w
    = (Return tt,
       record_event
         (EWrite 2%nat (WResponse (MCPResponse.mk_error "Invalid command format")))
         (record_event (EBridge call) w))
    /\ (call = groups_getAll \/ call = scenes_getAll).
Proof.
  apply (failed_list_query_is_reported_as_invalid_format Fixtures.decode
           Fixtures.line_get_groups 2%nat (MCPCommand.bare "get_groups")
           (Fixtures.started (Fixtures.bridge_rejecting None) [])
           (Fixtures.bridge_rejecting None) {| message := None |}).
  - reflexivity.
  - reflexivity.
  - left. split; reflexivity.
Defined.

End ShapeFacts.


(** ** [flash] for any [times] and any bridge *)

Module FlashMoreFacts.
Import JS Interpreter Server Vocabulary Terms MonadFacts FlashFacts CommandFacts.
Import MCPCommand.

Lemma Qceiling_pred (x : Q) : Qceiling (x - 1) = Qceiling x - 1.
Proof.
  pose proof (Qle_ceiling x) as H1. pose proof (Qceiling_lt x) as H2.
  pose proof (Qle_ceiling (x - 1)) as H3. pose proof (Qceiling_lt (x - 1)) as H4.
  unfold Z.sub in H2, H4. rewrite inject_Z_plus, inject_Z_opp in H2, H4.
  change (inject_Z 1) with 1%Q in H2, H4.
  enough (H : (inject_Z (Qceiling (x - 1)) < inject_Z (Qceiling x))%Q
              /\ (inject_Z (Qceiling x) + - (1) < inject_Z (Qceiling (x - 1)) + 1)%Q).
  { destruct H as [Ha Hb]. rewrite <- Zlt_Qlt in Ha.
    assert (Hc : (inject_Z (Qceiling x - 1) < inject_Z (Qceiling (x - 1) + 1))%Q).
    { unfold Z.sub. rewrite !inject_Z_plus, !inject_Z_opp.
      change (inject_Z 1) with 1%Q. exact Hb. }
    rewrite <- Zlt_Qlt in Hc. lia. }
  generalize dependent (inject_Z (Qceiling (x - 1))).
  generalize dependent (inject_Z (Qceiling x)).
  intros c H1 H2 c' H3 H4. split; lra.
Qed.

(** The number of iterations left at counter value [i]. *)
Lemma cycles_left_zero (times i : Q) :
  Z.to_nat (Qceiling (times - i)) = 0%nat -> (times <= i)%Q.
Proof.
  intros H. pose proof (Qle_ceiling (times - i)) as Hc.
  assert (Hz : (inject_Z (Qceiling (times - i)) <= inject_Z 0)%Q)
    by (rewrite <- Zle_Qle; lia).
  change (inject_Z 0) with 0%Q in Hz.
  generalize dependent (inject_Z (Qceiling (times - i))). intros. lra.
Qed.

Lemma cycles_left_succ (times i : Q) (m : nat) :
  Z.to_nat (Qceiling (times - i)) = S m ->
  (i < times)%Q /\ Z.to_nat (Qceiling (times - (i + 1))) = m.
Proof.
  intros H. pose proof (Qceiling_lt (times - i)) as Hc.
  assert (Hz : (inject_Z 0 <= inject_Z (Qceiling (times - i) - 1))%Q)
    by (rewrite <- Zle_Qle; lia).
  change (inject_Z 0) with 0%Q in Hz. split.
  - generalize dependent (inject_Z (Qceiling (times - i) - 1)). intros. lra.
  - assert (E : (times - (i + 1) == times - i - 1)%Q) by ring.
    rewrite (Qceiling_comp _ _ E), Qceiling_pred. lia.
Qed.

(** One iteration, whatever the bridge answers: either both calls resolve
    and the loop goes on from [i + 1], or the rejected call ends it. *)
Lemma flash_iteration (hue : Bridge) (lightId : string) (color : rgb)
    (times i : Q) (w : World) :
  bridge (state w) = Some hue -> (i < times)%Q ->
  (flash_loop lightId color times i w
   = flash_loop lightId color times (i + 1)%Q (after_cycle lightId color w)
   /\ (exists a, on_setLightState hue (bridge_calls (trace w)) lightId
                   (on_at_color color) = Resolved a)
   /\ (exists a, on_setLightState hue (bridge_calls (trace (after_on lightId color w)))
                   lightId off = Resolved a))
  \/ (exists e,
        on_setLightState hue (bridge_calls (trace w)) lightId (on_at_color color)
        = Rejected e
        /\ flash_loop lightId color times i w
           = (Throw e,
              record_event (EBridge (lights_setLightState lightId (on_at_color color))) w))
  \/ (exists e,
        on_setLightState hue (bridge_calls (trace (after_on lightId color w)))
          lightId off = Rejected e
        /\ flash_loop lightId color times i w
           = (Throw e,
              record_event (EBridge (lights_setLightState lightId off))
                (after_on lightId color w))).
Proof.
  intros Hb Hlt. rewrite flash_loop_unfold.
  destruct (Qlt_le_dec i times) as [_|Hle]; [|exfalso; lra].
  destruct (on_setLightState hue (bridge_calls (trace w)) lightId (on_at_color color))
    as [a1|e1] eqn:E1.
  - destruct (on_setLightState hue (bridge_calls (trace (after_on lightId color w)))
                lightId off) as [a2|e2] eqn:E2.
    + left. split; [|split; eauto].
      unfold bind at 1. rewrite (setLightState_resolved w hue _ _ a1 Hb E1).
      unfold bind at 1. unfold sleep at 1. fold (after_on lightId color w).
      unfold bind at 1.
      rewrite (setLightState_resolved (after_on lightId color w) hue _ _ a2 Hb E2).
      unfold bind at 1. unfold sleep at 1. reflexivity.
    + right. right. exists e2. split; [reflexivity|].
      unfold bind at 1. rewrite (setLightState_resolved w hue _ _ a1 Hb E1).
      unfold bind at 1. unfold sleep at 1. fold (after_on lightId color w).
      unfold bind at 1.
      rewrite (setLightState_rejected (after_on lightId color w) hue _ _ e2 Hb E2).
      reflexivity.
  - right. left. exists e1. split; [reflexivity|].
    unfold bind at 1. rewrite (setLightState_rejected w hue _ _ e1 Hb E1).
    reflexivity.
Qed.

Lemma flash_loop_any_bridge (hue : Bridge) (lightId : string) (color : rgb)
    (times : Q) :
  forall (m : nat) (i : Q) (w : World),
    Z.to_nat (Qceiling (times - i)) = m ->
    bridge (state w) = Some hue ->
    exists o w' events,
      flash_loop lightId color times i w = (o, w')
      /\ trace w' = (trace w ++ events)%list
      /\ state w' = state w
      /\ ((o = Return tt /\ events = loop_events lightId color m
           /\ Date_now w' = Date_now w + 1000 * Z.of_nat m)
          \/ (exists e received id st,
                o = Throw e
                /\ on_setLightState hue received id st = Rejected e
                /\ bridge_calls events <> []
                /\ bridge_calls events
                   `prefix_of` concat (replicate m [flash_on lightId color;
                                                    flash_off lightId]))).
Proof.
  induction m as [|m IH]; intros i w Hm Hb.
  - apply cycles_left_zero in Hm. rewrite flash_loop_unfold.
    destruct (Qlt_le_dec i times) as [Hlt|_]; [exfalso; lra|].
    exists (Return tt), w, []. rewrite app_nil_r.
    repeat split. left. repeat split. simpl. lia.
  - apply cycles_left_succ in Hm. destruct Hm as [Hlt Hm].
    destruct (flash_iteration hue lightId color times i w Hb Hlt)
      as [(Hgo & _ & _)|[(e & Hrej & Hstop)|(e & Hrej & Hstop)]].
    + destruct (IH (i + 1)%Q (after_cycle lightId color w) Hm Hb)
        as (o & w' & events & Hrun & Ht & Hs & Hcase).
      exists o, w',
        ([EBridge (flash_on lightId color); ESleep 500;
          EBridge (flash_off lightId); ESleep 500] ++ events)%list.
      rewrite Hgo, Hrun, Ht, Hs. split; [reflexivity|].
      split; [simpl; rewrite <- !app_assoc; reflexivity|]. split; [reflexivity|].
      destruct Hcase as [(-> & -> & Hd)|(e & received & id & st & -> & Hr & Hne & Hp)].
      * left. repeat split. rewrite Hd. simpl Date_now. lia.
      * right. exists e, received, id, st. repeat split; try assumption.
        -- simpl. discriminate.
        -- simpl. apply prefix_cons, prefix_cons. exact Hp.
    + exists (Throw e),
        (record_event (EBridge (lights_setLightState lightId (on_at_color color))) w),
        [EBridge (flash_on lightId color)].
      split; [exact Hstop|]. repeat split. right.
      exists e, (bridge_calls (trace w)), lightId, (on_at_color color).
      repeat split; try assumption; simpl; [discriminate|].
      apply prefix_cons, prefix_nil.
    + exists (Throw e),
        (record_event (EBridge (lights_setLightState lightId off))
           (after_on lightId color w)),
        [EBridge (flash_on lightId color); ESleep 500; EBridge (flash_off lightId)].
      split; [exact Hstop|].
      split; [simpl; rewrite <- !app_assoc; reflexivity|]. split; [reflexivity|].
      right.
      exists e, (bridge_calls (trace (after_on lightId color w))), lightId, off.
      repeat split; try assumption; simpl; [discriminate|].
      apply prefix_cons, prefix_cons, prefix_nil.
Qed.

(** The [flash] case on any bridge. *)
Lemma flash_on_any_bridge (hue : Bridge) (command : MCPCommand.t)
    (lightId : string) (color : rgb) (w : World) :
  type command = "flash" ->
  MCPCommand.lightId command = Some lightId -> lightId <> "" ->
  MCPCommand.color command = Some color ->
  bridge (state w) = Some hue ->
  let n := Z.to_nat (Qceiling (or_num (times command) (num 3))) in
  exists r w' events,
    handleCommand command w = (Return r, w')
    /\ trace w' = (trace w ++ events)%list
    /\ bridge_calls events <> []
    /\ bridge_calls events `prefix_of` flash_calls lightId color n
    /\ ((r = MCPResponse.mk_success
         /\ bridge_calls events = flash_calls lightId color n
         /\ Date_now w' = Date_now w + 1000 * Z.of_nat n)
        \/ (exists e received id st,
              on_setLightState hue received id st = Rejected e
              /\ r = MCPResponse.mk_error (or_str (message e) "Failed to flash light"))).
Proof.
  intros Hty Hid Hne Hcolor Hb n.
  unfold handleCommand. rewrite Hty. decide_case.
  rewrite Hid, Hcolor, (truthy_string_nonempty _ Hne).
  unfold try_catch. cbv zeta.
  set (t := or_num (times command) (num 3)) in *.
  assert (Hn : Z.to_nat (Qceiling (t - num 0)) = n).
  { subst n. f_equal. apply Qceiling_comp. unfold num. simpl. ring. }
  destruct (flash_loop_any_bridge hue lightId color t n (num 0) w Hn Hb)
    as (o & w1 & events & Hrun & Ht & Hs & Hcase).
  unfold bind at 1. rewrite Hrun.
  destruct Hcase as [(-> & -> & Hd)|(e & received & id & st & -> & Hr & Hnil & Hp)].
  - rewrite <- Hs in Hb.
    destruct (on_setLightState hue (bridge_calls (trace w1)) lightId (on_at_color color))
      as [a|e] eqn:E.
    + unfold bind. rewrite (setLightState_resolved w1 hue _ _ a Hb E).
      do 2 eexists.
      exists (loop_events lightId color n ++ [EBridge (flash_on lightId color)])%list.
      split; [reflexivity|]. simpl. rewrite Ht, <- app_assoc.
      split; [reflexivity|].
      rewrite bridge_calls_app, bridge_calls_loop_events.
      split; [intros H; apply app_eq_nil in H; destruct H; discriminate|].
      split; [reflexivity|]. left. repeat split. exact Hd.
    + unfold bind. rewrite (setLightState_rejected w1 hue _ _ e Hb E).
      do 2 eexists.
      exists (loop_events lightId color n ++ [EBridge (flash_on lightId color)])%list.
      split; [reflexivity|]. simpl. rewrite Ht, <- app_assoc.
      split; [reflexivity|].
      rewrite bridge_calls_app, bridge_calls_loop_events.
      split; [intros H; apply app_eq_nil in H; destruct H; discriminate|].
      split; [reflexivity|]. right.
      exists e, (bridge_calls (trace w1)), lightId, (on_at_color color). auto.
  - do 2 eexists. exists events. split; [reflexivity|].
    split; [exact Ht|]. split; [exact Hnil|].
    split; [unfold flash_calls; now apply prefix_app_r|].
    right. exists e, received, id, st. auto.
Qed.

(** X15: on a bridge that resolves every call, a [flash] command runs as
    many cycles as the ceiling of its [times], 3 when [times] is absent or
    zero and none when it is negative: the bridge receives that many
    on/off pairs followed by the final on call, and the response comes
    only after the timed waits, 1000 milliseconds per cycle. *)
Theorem flash_runs_the_ceiling_of_times (hue : Bridge) (command : MCPCommand.t)
    (lightId : string) (color : rgb) (w : World) :
  type command = "flash" ->
  MCPCommand.lightId command = Some lightId -> lightId <> "" ->
  MCPCommand.color command = Some color ->
  bridge (state w) = Some hue -> accepts_light_states hue ->
  let n := Z.to_nat (Qceiling (or_num (times command) (num 3))) in
  exists w' events,
    handleCommand command w = (Return MCPResponse.mk_success, w')
    /\ trace w' = (trace w ++ events)%list
    /\ bridge_calls events = flash_calls lightId color n
    /\ Date_now w' = Date_now w + 1000 * Z.of_nat n.
Proof.
  intros Hty Hid Hne Hcolor Hb Hacc n.
  destruct (flash_on_any_bridge hue command lightId color w Hty Hid Hne Hcolor Hb)
    as (r & w' & events & Hrun & Ht & _ & _ & Hcase).
  destruct Hcase as [(-> & Hc & Hd)|(e & received & id & st & Hrej & _)].
  - exists w', events. auto.
  - destruct (Hacc received id st) as [a Ha]. congruence.
Qed.

(** [times] 5/2 runs three cycles and takes three seconds; [times] -1 runs
    none and sends the final on call only. *)
Lemma flash_runs_the_ceiling_of_times_witness :
  let hue := Fixtures.bridge_accepting [] in
  let w := Fixtures.started hue [] in
  (exists w' events,
     handleCommand (Fixtures.flash_command (Some (5 # 2))) w
     = (Return MCPResponse.mk_success, w')
     /\ trace w' = (trace w ++ events)%list
     /\ bridge_calls events = flash_calls "2" Fixtures.green 3
     /\ Date_now w' = Date_now w + 1000 * 3)
  /\ (exists w' events,
        handleCommand (Fixtures.flash_command (Some (num (-1)))) w
        = (Return MCPResponse.mk_success, w')
        /\ trace w' = (trace w ++ events)%list
        /\ bridge_calls events = [flash_on "2" Fixtures.green]
        /\ Date_now w' = Date_now w + 1000 * 0).
Proof.
  split.
  - apply (flash_runs_the_ceiling_of_times (Fixtures.bridge_accepting [])
             (Fixtures.flash_command (Some (5 # 2))) "2" Fixtures.green
             (Fixtures.started (Fixtures.bridge_accepting []) []));
      try reflexivity; [discriminate|].
    intros received id st. exists (any_bool true). reflexivity.
  - apply (flash_runs_the_ceiling_of_times (Fixtures.bridge_accepting [])
             (Fixtures.flash_command (Some (num (-1)))) "2" Fixtures.green
             (Fixtures.started (Fixtures.bridge_accepting []) []));
      try reflexivity; [discriminate|].
    intros received id st. exists (any_bool true). reflexivity.
Defined.



End FlashMoreFacts.


(** ** Runs of the disco interval *)

Module DiscoMoreFacts.
Import JS Interpreter Server Vocabulary Terms MonadFacts DiscoFacts CommandFacts.
Import MCPCommand.

Lemma palette_shift_for (lightId : string) (c k : nat) :
  map (fun i => EBridge (tick_call lightId (((c + 1) mod 6 + i) mod 6))) (seq 0 k)
  = map (fun i => EBridge (tick_call lightId ((c + i) mod 6))) (seq 1 k).
Proof.
  rewrite <- seq_shift, map_map. apply map_ext. intros i.
  rewrite Nat.Div0.add_mod_idemp_l.
  do 3 f_equal. lia.
Qed.

(** X17: on a bridge that resolves every call, and when each callback
    has run to its end, its bridge call settled, before the timer fires
    again (the firings of [run_interval] never overlap), any run of a
    disco timer sends the palette in order, starting at the cursor and
    wrapping after the sixth colour, one call per firing; the run makes at
    least one call, and it makes fewer calls than there are firings only
    because the interval has been cleared. *)
Theorem disco_cycles_through_the_palette (id : nat) (hue : Bridge)
    (delays : list Z) (w : World) (j : Interval) :
  accepts_light_states hue ->
  intervals w !! id = Some j -> i_cleared j = false ->
  (i_colorIndex j < 6)%nat ->
  bridge (state w) = Some hue ->
  exists (w' : World) (k : nat) (j' : Interval),
    run_interval id delays w = (Return tt, w')
    /\ (k <= length delays)%nat
    /\ (delays <> [] -> 1 <= k)%nat
    /\ trace w'
       = (trace w ++
          map (fun i => EBridge (tick_call (i_lightId j) ((i_colorIndex j + i) mod 6)))
            (seq 0 k))%list
    /\ intervals w' !! id = Some j'
    /\ i_colorIndex j' = ((i_colorIndex j + k) mod 6)%nat
    /\ ((k < length delays)%nat -> i_cleared j' = true).
Proof.
  intros Hacc. revert w j.
  induction delays as [|ms delays IH]; intros w j Hj Hrun Hidx Hb.
  - exists w, 0%nat, j.
    split; [reflexivity|]. split; [simpl; lia|]. split; [congruence|].
    split; [simpl; now rewrite app_nil_r|]. split; [exact Hj|].
    split; [now rewrite Nat.add_0_r, Nat.mod_small|simpl; lia].
  - pose proof (lookup_lt_Some _ _ _ Hj) as Hlt.
    destruct (Hacc (bridge_calls (trace (advance_clock ms w))) (i_lightId j)
                (tick_state (i_colorIndex j))) as [a Ha].
    pose proof (tick_resolved id j (advance_clock ms w) hue a Hj Hrun Hb Ha) as Htick.
    set (j1 := after_tick j (Date_now (advance_clock ms w))) in *.
    set (w1 := update_interval id j1 _) in *.
    assert (Hj1 : intervals w1 !! id = Some j1)
      by (simpl; apply list_lookup_insert_eq; exact Hlt).
    cbn [run_interval]. unfold bind at 1. unfold elapse at 1. unfold bind at 1.
    rewrite Htick.
    destruct (i_cleared j1) eqn:Hc.
    + destruct (cleared_interval_is_silent id j1 delays Hc w1 Hj1)
        as (w' & Hr & Ht & Hi & _).
      exists w', 1%nat, j1. rewrite Hr, Ht, Hi.
      split; [reflexivity|]. split; [simpl; lia|]. split; [lia|].
      split; [|split; [exact Hj1|split; [reflexivity|intros _; exact Hc]]].
      change (seq 0 1) with [0%nat]. cbn [map].
      rewrite Nat.add_0_r, Nat.mod_small by exact Hidx. reflexivity.
    + destruct (IH w1 j1 Hj1 Hc) as (w' & k & j' & Hr & Hk & _ & Ht & Hj' & Hcur & Hcl).
      * change ((i_colorIndex j + 1) mod 6 < 6)%nat.
        apply Nat.mod_upper_bound. discriminate.
      * exact Hb.
      * exists w', (S k), j'. rewrite Hr, Ht.
        split; [reflexivity|]. split; [simpl; lia|]. split; [lia|].
        split; [|split; [exact Hj'|split]].
        -- change (i_colorIndex j1) with ((i_colorIndex j + 1) mod 6)%nat.
           change (i_lightId j1) with (i_lightId j).
           rewrite palette_shift_for. simpl trace.
           rewrite <- app_assoc. f_equal.
           change (seq 0 (S k)) with (0%nat :: seq 1 k). cbn [map app].
           rewrite Nat.add_0_r, Nat.mod_small by exact Hidx. reflexivity.
        -- rewrite Hcur.
           change (i_colorIndex j1) with ((i_colorIndex j + 1) mod 6)%nat.
           rewrite Nat.Div0.add_mod_idemp_l. f_equal. lia.
        -- intros Hlen. apply Hcl. simpl in Hlen. lia.
Qed.

(** A job of 30 seconds, started on blue, fired eight times 500 ms apart. *)
Lemma disco_cycles_through_the_palette_witness :
  let j := {| i_lightId := "3"; i_duration := num 30; i_speed := num 500;
              i_colorIndex := 2%nat; i_startTime := 1000; i_cleared := false |} in
  let hue := Fixtures.bridge_accepting [] in
  let w := {| state := {| bridge := Some hue; lights := [] |};
              Date_now := 1000; intervals := [j]; trace := [] |} in
  exists (w' : World) (k : nat) (j' : Interval),
    run_interval 0%nat (replicate 8 500%Z) w = (Return tt, w')
    /\ (k <= length (replicate 8 500%Z))%nat
    /\ (replicate 8 500%Z <> [] -> 1 <= k)%nat
    /\ trace w'
       = (trace w ++
          map (fun i => EBridge (tick_call "3" ((2 + i) mod 6))) (seq 0 k))%list
    /\ intervals w' !! 0%nat = Some j'
    /\ i_colorIndex j' = ((2 + k) mod 6)%nat
    /\ ((k < length (replicate 8 500%Z))%nat -> i_cleared j' = true).
Proof.
  apply (disco_cycles_through_the_palette 0%nat (Fixtures.bridge_accepting [])
           (replicate 8 500%Z)
           {| state := {| bridge := Some (Fixtures.bridge_accepting []); lights := [] |};
              Date_now := 1000;
              intervals := [{| i_lightId := "3"; i_duration := num 30;
                               i_speed := num 500; i_colorIndex := 2%nat;
                               i_startTime := 1000; i_cleared := false |}];
              trace := [] |}
           {| i_lightId := "3"; i_duration := num 30; i_speed := num 500;
              i_colorIndex := 2%nat; i_startTime := 1000; i_cleared := false |}).
  - intros received id st. exists (any_bool true). reflexivity.
  - reflexivity.
  - reflexivity.
  - simpl. lia.
  - reflexivity.
Defined.

Lemma disco_run_rejected (id : nat) (hue : Bridge) (j : Interval) :
  rejects_light_states hue -> i_cleared j = false ->
  forall (delays : list Z) (w : World),
    intervals w !! id = Some j ->
    bridge (state w) = Some hue ->
    exists w' : World,
      run_interval id delays w = (Return tt, w')
      /\ trace w'
         = (trace w ++ replicate (length delays)
                         (EBridge (tick_call (i_lightId j) (i_colorIndex j))))%list
      /\ intervals w' = intervals w
      /\ state w' = state w.
Proof.
  intros Hrej Hrun. induction delays as [|ms delays IH]; intros w Hj Hb.
  - exists w. simpl. rewrite app_nil_r. auto.
  - destruct (Hrej (bridge_calls (trace (advance_clock ms w))) (i_lightId j)
                (tick_state (i_colorIndex j))) as [e He].
    pose proof (tick_rejected id j (advance_clock ms w) hue e Hj Hrun Hb He) as Htick.
    destruct (IH (record_event
                    (EBridge (lights_setLightState (i_lightId j)
                                (tick_state (i_colorIndex j))))
                    (advance_clock ms w)) Hj Hb) as (w' & Hr & Ht & Hi & Hs).
    exists w'. cbn [run_interval]. unfold bind at 1. unfold elapse at 1.
    unfold bind at 1. rewrite Htick, Hr, Ht, Hi, Hs.
    split; [reflexivity|]. split; [|auto]. simpl. rewrite <- app_assoc. reflexivity.
Qed.

(** X18: a disco job does not end while the bridge rejects its calls: each
    firing still sends the call for the colour under the cursor, but the
    cursor does not advance and the elapsed time is not compared with the
    duration, so that the interval stays registered and uncleared however
    long the run lasts. *)
Theorem disco_never_ends_while_rejected (id : nat) (hue : Bridge) (j : Interval)
    (delays : list Z) (w : World) :
  rejects_light_states hue -> i_cleared j = false ->
  intervals w !! id = Some j ->
  bridge (state w) = Some hue ->
  exists w' : World,
    run_interval id delays w = (Return tt, w')
    /\ trace w'
       = (trace w ++ replicate (length delays)
                       (EBridge (tick_call (i_lightId j) (i_colorIndex j))))%list
    /\ intervals w' !! id = Some j.
Proof.
  intros Hrej Hrun Hj Hb.
  destruct (disco_run_rejected id hue j Hrej Hrun delays w Hj Hb)
    as (w' & Hr & Ht & Hi & _).
  exists w'. rewrite Hi. auto.
Qed.

(** A job of one second on an unreachable light, fired once a minute for
    five minutes. *)
Lemma disco_never_ends_while_rejected_witness :
  let j := {| i_lightId := "3"; i_duration := num 1; i_speed := num 200;
              i_colorIndex := 0%nat; i_startTime := 1000; i_cleared := false |} in
  let hue := Fixtures.bridge_rejecting (Some "unreachable") in
  let w := {| state := {| bridge := Some hue; lights := [] |};
              Date_now := 1000; intervals := [j]; trace := [] |} in
  exists w' : World,
    run_interval 0%nat (replicate 5 60000%Z) w = (Return tt, w')
    /\ trace w'
       = (trace w ++ replicate (length (replicate 5 60000%Z))
                       (EBridge (tick_call "3" 0)))%list
    /\ intervals w' !! 0%nat = Some j.
Proof.
  apply (disco_never_ends_while_rejected 0%nat
           (Fixtures.bridge_rejecting (Some "unreachable"))
           {| i_lightId := "3"; i_duration := num 1; i_speed := num 200;
              i_colorIndex := 0%nat; i_startTime := 1000; i_cleared := false |}
           (replicate 5 60000%Z)
           {| state := {| bridge := Some (Fixtures.bridge_rejecting (Some "unreachable"));
                          lights := [] |};
              Date_now := 1000;
              intervals := [{| i_lightId := "3"; i_duration := num 1;
                               i_speed := num 200; i_colorIndex := 0%nat;
                               i_startTime := 1000; i_cleared := false |}];
              trace := [] |}).
  - intros received id st. eexists. reflexivity.
  - reflexivity.
  - reflexivity.
  - reflexivity.
Defined.

Lemma keeps_timer_same {A : Type} (other : nat) (f : World -> Outcome A) :
  keeps_timer other (fun w => (f w, w)).
Proof. intros w. auto. Qed.

Lemma keeps_timer_bind {A B : Type} (other : nat) (m : M A) (k : A -> M B) :
  keeps_timer other m -> (forall a, keeps_timer other (k a)) ->
  keeps_timer other (bind m k).
Proof.
  intros Hm Hk w. unfold bind. destruct (Hm w) as [H1 H2].
  destruct (m w) as [[a|e] w1]; simpl in *; [|auto].
  destruct (Hk a w1) as [H3 H4]. split; congruence.
Qed.

Lemma keeps_timer_try_catch {A : Type} (other : nat) (body : M A)
    (handler : Error -> M A) :
  keeps_timer other body -> (forall e, keeps_timer other (handler e)) ->
  keeps_timer other (try_catch body handler).
Proof.
  intros Hm Hk w. unfold try_catch. destruct (Hm w) as [H1 H2].
  destruct (body w) as [[a|e] w1]; simpl in *; [auto|].
  destruct (Hk e w1) as [H3 H4]. split; congruence.
Qed.

Lemma keeps_timer_set_interval (id other : nat) (j : Interval) :
  id <> other -> keeps_timer other (set_interval id j).
Proof.
  intros Hne w. simpl. rewrite length_insert, list_lookup_insert_ne by exact Hne. auto.
Qed.

Lemma keeps_timer_setLightState (other : nat) (id : string) (st : gmap string JsVal) :
  keeps_timer other (bridge_lights_setLightState id st).
Proof.
  intros w. unfold bridge_lights_setLightState, bind, state_bridge, await_bridge.
  destruct (bridge (state w)) as [b|]; [|auto]. simpl.
  destruct (on_setLightState b (bridge_calls (trace w)) id st); auto.
Qed.

(** X19: timers do not interfere: when the timer of one disco job fires,
    the captured variables of every other job (cursor, start time,
    duration, cleared flag) are left as they were and no timer is added or
    removed, whatever the bridge answers. *)
Theorem a_tick_leaves_the_other_jobs_alone (id other : nat) (w : World) :
  id <> other ->
  intervals (snd (interval_fires id w)) !! other = intervals w !! other
  /\ length (intervals (snd (interval_fires id w))) = length (intervals w).
Proof.
  intros Hne. revert w. change (keeps_timer other (interval_fires id)).
  unfold interval_fires, disco_callback, clearInterval, get_interval, get_Date_now.
  repeat first
    [ apply keeps_timer_setLightState
    | apply keeps_timer_set_interval; exact Hne
    | apply (keeps_timer_same other (fun w => Return (intervals w !! id)))
    | apply (keeps_timer_same other (fun w => Return (Date_now w)))
    | apply (keeps_timer_same other (fun _ => Return tt))
    | apply keeps_timer_bind; [|intros]
    | apply keeps_timer_try_catch; [|intros]
    | match goal with
      | |- keeps_timer _ (match ?x with _ => _ end) => destruct x
      | |- keeps_timer _ (if ?x then _ else _) => destruct x
      end ].
Qed.

(** Two jobs on the same light: a tick of the first leaves the second as
    it was. *)
Lemma a_tick_leaves_the_other_jobs_alone_witness :
  let j := {| i_lightId := "3"; i_duration := num 1; i_speed := num 200;
              i_colorIndex := 0%nat; i_startTime := 1000; i_cleared := false |} in
  let w := {| state := {| bridge := Some (Fixtures.bridge_accepting []); lights := [] |};
              Date_now := 5000; intervals := [j; j]; trace := [] |} in
  intervals (snd (interval_fires 0%nat w)) !! 1%nat = intervals w !! 1%nat
  /\ length (intervals (snd (interval_fires 0%nat w))) = length (intervals w).
Proof.
  apply (a_tick_leaves_the_other_jobs_alone 0%nat 1%nat). discriminate.
Defined.

(** X20: disco jobs are not deduplicated: two [disco] commands for the same
    light are both answered with the success response at once, without a
    bridge call, and leave two running intervals on that light, the second
    registered after the first. *)
Theorem disco_twice_runs_two_jobs (first second : MCPCommand.t) (lightId : string)
    (w : World) :
  type first = "disco" -> type second = "disco" ->
  MCPCommand.lightId first = Some lightId ->
  MCPCommand.lightId second = Some lightId -> lightId <> "" ->
  exists (j1 j2 : Interval) (w' : World),
    handleCommand first w = (Return MCPResponse.mk_success, register_interval j1 w)
    /\ handleCommand second (register_interval j1 w)
       = (Return MCPResponse.mk_success, w')
    /\ intervals w' = (intervals w ++ [j1; j2])%list
    /\ trace w' = trace w
    /\ i_lightId j1 = lightId /\ i_lightId j2 = lightId
    /\ i_cleared j1 = false /\ i_cleared j2 = false.
Proof.
  intros H1 H2 Hl1 Hl2 Hne.
  pose proof (disco_starts first lightId w H1 Hl1 Hne) as E1.
  set (j1 := {| i_lightId := lightId;
                i_duration := or_num (duration first) (num 30);
                i_speed := or_num (speed first) (num 500);
                i_colorIndex := 0%nat; i_startTime := Date_now w;
                i_cleared := false |}) in *.
  pose proof (disco_starts second lightId (register_interval j1 w) H2 Hl2 Hne) as E2.
  exists j1. do 2 eexists. split; [exact E1|]. split; [exact E2|].
  simpl. rewrite <- app_assoc. repeat split.
Qed.

(** [{"type":"disco","lightId":"3"}] sent twice. *)
Lemma disco_twice_runs_two_jobs_witness :
  let w := Fixtures.started (Fixtures.bridge_accepting []) [] in
  exists (j1 j2 : Interval) (w' : World),
    handleCommand (Fixtures.disco_command None None) w
    = (Return MCPResponse.mk_success, register_interval j1 w)
    /\ handleCommand (Fixtures.disco_command None None) (register_interval j1 w)
       = (Return MCPResponse.mk_success, w')
    /\ intervals w' = (intervals w ++ [j1; j2])%list
    /\ trace w' = trace w
    /\ i_lightId j1 = "3" /\ i_lightId j2 = "3"
    /\ i_cleared j1 = false /\ i_cleared j2 = false.
Proof.
  apply (disco_twice_runs_two_jobs (Fixtures.disco_command None None)
           (Fixtures.disco_command None None) "3"
           (Fixtures.started (Fixtures.bridge_accepting []) []));
    try reflexivity. discriminate.
Defined.




End DiscoMoreFacts.


(** ** Start-up *)

Module StartupFacts.
Import JS Interpreter Server Startup Vocabulary Terms MonadFacts.

(** X22: [initializeHueBridge] returns normally exactly when both variables
    of the environment are set and non-empty, the connection resolves and
    the first fetch of the lights resolves.  When a variable is missing it
    throws without attempting a connection; when the connection is
    rejected it throws that error and [state] is untouched; when the fetch
    is rejected it throws that error with the bridge already stored in
    [state] and the light list still empty. *)
Theorem initialization_succeeds_or_throws (HUE_BRIDGE_IP HUE_USERNAME : option string)
    (connect : string -> string -> Settled Bridge) (now : Z) :
  let run := initializeHueBridge HUE_BRIDGE_IP HUE_USERNAME connect (initial_world now) in
  (fst run = Return tt
   <-> exists host username hue ls,
         truthy_string HUE_BRIDGE_IP = Some host
         /\ truthy_string HUE_USERNAME = Some username
         /\ connect host username = Resolved hue
         /\ on_lights_getAll hue [] = Resolved ls)
  /\ (truthy_string HUE_BRIDGE_IP = None \/ truthy_string HUE_USERNAME = None ->
      run = (Throw missing_environment, initial_world now))
  /\ (forall host username e,
        truthy_string HUE_BRIDGE_IP = Some host ->
        truthy_string HUE_USERNAME = Some username ->
        connect host username = Rejected e ->
        run = (Throw e, initial_world now))
  /\ (forall host username hue e,
        truthy_string HUE_BRIDGE_IP = Some host ->
        truthy_string HUE_USERNAME = Some username ->
        connect host username = Resolved hue ->
        on_lights_getAll hue [] = Rejected e ->
        fst run = Throw e
        /\ state (snd run) = {| bridge := Some hue; lights := [] |}
        /\ trace (snd run) = [EBridge lights_getAll]).
Proof.
  cbv zeta. unfold initializeHueBridge, try_catch.
  split; [|split; [|split]].
  - split.
    + destruct (truthy_string HUE_BRIDGE_IP) as [host|]; [|discriminate].
      destruct (truthy_string HUE_USERNAME) as [username|]; [|discriminate].
      unfold bind at 1.
      destruct (connect host username) as [hue|e] eqn:Hc; [|discriminate].
      unfold bind, get_state, set_state, bridge_lights_getAll, bind, state_bridge,
        await_bridge. simpl.
      destruct (on_lights_getAll hue []) as [ls|e] eqn:Hl; [|discriminate].
      intros _. exists host, username, hue, ls. auto.
    + intros (host & username & hue & ls & -> & -> & Hc & Hl).
      unfold bind at 1. rewrite Hc.
      unfold bind, get_state, set_state, bridge_lights_getAll, bind, state_bridge,
        await_bridge. simpl. now rewrite Hl.
  - intros [H|H]; rewrite H; [|destruct (truthy_string HUE_BRIDGE_IP)]; reflexivity.
  - intros host username e -> -> Hc. unfold bind at 1. now rewrite Hc.
  - intros host username hue e -> -> Hc Hl. unfold bind at 1. rewrite Hc.
    unfold bind, get_state, set_state, bridge_lights_getAll, bind, state_bridge,
      await_bridge. simpl. rewrite Hl. auto.
Qed.

(** An empty HUE_USERNAME, and a bridge that connects but rejects the
    fetch. *)
Lemma initialization_succeeds_or_throws_witness :
  initializeHueBridge (Some "192.168.1.2") (Some "")
    (fun _ _ => Resolved Fixtures.bridge_drifting) (initial_world 0)
  = (Throw missing_environment, initial_world 0)
  /\ state (snd (initializeHueBridge (Some "192.168.1.2") (Some "hue-user")
                   (fun _ _ => Resolved (Fixtures.bridge_rejecting None))
                   (initial_world 0)))
     = {| bridge := Some (Fixtures.bridge_rejecting None); lights := [] |}.
Proof.
  split.
  - apply (initialization_succeeds_or_throws (Some "192.168.1.2") (Some "")
             (fun _ _ => Resolved Fixtures.bridge_drifting) 0).
    right. reflexivity.
  - destruct (initialization_succeeds_or_throws (Some "192.168.1.2") (Some "hue-user")
                (fun _ _ => Resolved (Fixtures.bridge_rejecting None)) 0)
      as (_ & _ & _ & H).
    apply (H "192.168.1.2" "hue-user" (Fixtures.bridge_rejecting None)
             {| message := None |}); reflexivity.
Defined.

Section Listener.

Variable server_listen : number -> M unit.

(** X23: the process listens only once the bridge is initialized: when
    [initializeHueBridge] throws, [startMCPServer] throws the same error
    and [main] ends in [process.exit(1)], in the world the initialization
    left, so that [server.listen] has not run; when it returns, the server
    listens on the port parsed from MCP_PORT, or on 3000 when MCP_PORT is
    unset or empty. *)
Theorem process_listens_only_after_initialization
    (MCP_PORT : option string) (parseInt : string -> number)
    (HUE_BRIDGE_IP HUE_USERNAME : option string)
    (connect : string -> string -> Settled Bridge) (w : World) :
  let port := match MCP_PORT with
              | Some text => if truthy_str text then parseInt text else num 3000
              | None => num 3000
              end in
  (forall e w1,
     initializeHueBridge HUE_BRIDGE_IP HUE_USERNAME connect w = (Throw e, w1) ->
     startMCPServer server_listen port HUE_BRIDGE_IP HUE_USERNAME connect w
     = (Throw e, w1)
     /\ main server_listen MCP_PORT parseInt HUE_BRIDGE_IP HUE_USERNAME connect w
        = (Return (Exited 1), w1))
  /\ (forall w1,
        initializeHueBridge HUE_BRIDGE_IP HUE_USERNAME connect w = (Return tt, w1) ->
        startMCPServer server_listen port HUE_BRIDGE_IP HUE_USERNAME connect w
        = server_listen port w1
        /\ (forall w2, server_listen port w1 = (Return tt, w2) ->
            main server_listen MCP_PORT parseInt HUE_BRIDGE_IP HUE_USERNAME connect w
            = (Return Serving, w2))).
Proof.
  cbv zeta.
  assert (Hport : match truthy_string MCP_PORT with
                  | Some text => parseInt text
                  | None => num 3000
                  end
                  = match MCP_PORT with
                    | Some text => if truthy_str text then parseInt text else num 3000
                    | None => num 3000
                    end).
  { destruct MCP_PORT as [text|]; [|reflexivity]. simpl.
    destruct (truthy_str text); reflexivity. }
  split.
  - intros e w1 Hinit. unfold main. cbv zeta. rewrite Hport.
    unfold startMCPServer, try_catch, bind, throw. rewrite Hinit. auto.
  - intros w1 Hinit. unfold main. cbv zeta. rewrite Hport.
    unfold startMCPServer, try_catch, bind. rewrite Hinit.
    split; [reflexivity|]. intros w2 ->. reflexivity.
Qed.

End Listener.

(** No MCP_PORT and no HUE_USERNAME: exit code 1, nothing listening. *)
Lemma process_listens_only_after_initialization_witness :
  main (fun _ => ret tt) None (fun _ => num 8080) (Some "192.168.1.2") None
    (fun _ _ => Resolved Fixtures.bridge_drifting) (initial_world 0)
  = (Return (Exited 1), initial_world 0).
Proof.
  destruct (process_listens_only_after_initialization (fun _ => ret tt) None
              (fun _ => num 8080) (Some "192.168.1.2") None
              (fun _ _ => Resolved Fixtures.bridge_drifting) (initial_world 0))
    as [H _].
  apply (H missing_environment (initial_world 0)). reflexivity.
Defined.

End StartupFacts.
